(** * The dino runner of [src/game.js]: a shallow embedding and its properties

    The game keeps its whole state in module-level variables that the event
    handlers and the frame callback [animate] mutate.  Here that state is one
    record, [Game], and every source function is a function on it.

    Numbers.  JavaScript numbers are modelled as exact rationals ([Q]); the
    score and the best score, which only ever hold integers, are [Z].  Rounding
    of binary floating point is not modelled.

    Randomness.  [rand : nat -> Q] is the stream of the values [Math.random]
    returns to the calls written in [src/game.js], in the order of those
    calls; the state counts in [rng] how many of them have been made.  The
    draws the three.js library makes for itself (it draws an identifier for
    each object it constructs) are not part of the stream and are not
    counted, so [rng] is not the number of calls of [Math.random].

    Rendering.  Meshes, materials, the scene graph, the ground lines, the stars
    and the angles computed with [Math.sin] feed nothing back into the game and
    are left out; the draws [src/game.js] makes while building meshes are
    kept, since they shift the stream. *)

From Stdlib Require Import ZArith QArith Qminmax Lqa Lia Bool.
From stdpp Require Import base list.

Local Open Scope Q_scope.

(** ** Numbers *)

(** [a < b] and [a <= b] of the source, as booleans. *)
Definition Qleb (a b : Q) : bool := Qle_bool a b.
Definition Qltb (a b : Q) : bool := negb (Qle_bool b a).

(** ** Data model *)

Inductive ObstacleType := cactus | doubleCactus | pterodactyl.

(** An obstacle: [position.x], [position.y] and its [userData].  [wingPhase]
    exists on pterodactyls only and is read for them only; it is [0] on the
    others. *)
Record Obstacle := mkObstacle {
  o_type : ObstacleType;
  o_x : Q;
  o_y : Q;
  o_width : Q;
  o_height : Q;
  o_wingPhase : Q;
  o_passed : bool
}.

Record Vec3 := mkVec3 { vx : Q; vy : Q; vz : Q }.

(** A particle: [position], [userData.velocity], [userData.rotSpeed] (death
    particles only), [userData.life], [rotation] and [material.opacity]. *)
Record Particle := mkParticle {
  p_pos : Vec3;
  p_velocity : Vec3;
  p_rotSpeed : option Vec3;
  p_life : Q;
  p_rotation : Vec3;
  p_opacity : Q
}.

(** The player: [dino.position.y], [dino.scale.y], [dino.visible].  Its
    horizontal position never changes. *)
Record Dino := mkDino {
  pos_y : Q;
  scale_y : Q;
  visible : bool
}.

Record Game := mkGame {
  obstacles : list Obstacle;
  particles : list Particle;
  dino : Dino;
  camera_x : Q;
  camera_y : Q;
  gameStarted : bool;
  gameOver : bool;
  score : Z;
  highScore : Z;
  speed : Q;
  jumpVelocity : Q;
  isJumping : bool;
  isDucking : bool;
  obstacleTimer : Q;
  lastTime : Q;
  (** [localStorage.getItem('dinoHighScore')] *)
  storage : option Z;
  (** number of [Math.random()] calls made so far *)
  rng : nat
}.

(** Constants of the module. *)
Definition baseSpeed : Q := 15 # 100.
Definition gravity : Q := 15 # 1000.
Definition groundY : Q := -2.
(** [dino.userData.baseY] *)
Definition baseY : Q := groundY + (4 # 10).
(** [dino.position.x] *)
Definition dino_x : Q := -4.

(** ** Field updates *)

Definition set_obstacles (v : list Obstacle) (s : Game) : Game :=
  mkGame v (particles s) (dino s) (camera_x s) (camera_y s) (gameStarted s)
    (gameOver s) (score s) (highScore s) (speed s) (jumpVelocity s)
    (isJumping s) (isDucking s) (obstacleTimer s) (lastTime s) (storage s)
    (rng s).

Definition set_particles (v : list Particle) (s : Game) : Game :=
  mkGame (obstacles s) v (dino s) (camera_x s) (camera_y s) (gameStarted s)
    (gameOver s) (score s) (highScore s) (speed s) (jumpVelocity s)
    (isJumping s) (isDucking s) (obstacleTimer s) (lastTime s) (storage s)
    (rng s).

Definition set_dino (v : Dino) (s : Game) : Game :=
  mkGame (obstacles s) (particles s) v (camera_x s) (camera_y s)
    (gameStarted s) (gameOver s) (score s) (highScore s) (speed s)
    (jumpVelocity s) (isJumping s) (isDucking s) (obstacleTimer s)
    (lastTime s) (storage s) (rng s).

Definition set_camera (x y : Q) (s : Game) : Game :=
  mkGame (obstacles s) (particles s) (dino s) x y (gameStarted s)
    (gameOver s) (score s) (highScore s) (speed s) (jumpVelocity s)
    (isJumping s) (isDucking s) (obstacleTimer s) (lastTime s) (storage s)
    (rng s).

Definition set_gameStarted (v : bool) (s : Game) : Game :=
  mkGame (obstacles s) (particles s) (dino s) (camera_x s) (camera_y s) v
    (gameOver s) (score s) (highScore s) (speed s) (jumpVelocity s)
    (isJumping s) (isDucking s) (obstacleTimer s) (lastTime s) (storage s)
    (rng s).

Definition set_gameOver (v : bool) (s : Game) : Game :=
  mkGame (obstacles s) (particles s) (dino s) (camera_x s) (camera_y s)
    (gameStarted s) v (score s) (highScore s) (speed s) (jumpVelocity s)
    (isJumping s) (isDucking s) (obstacleTimer s) (lastTime s) (storage s)
    (rng s).

Definition set_score (v : Z) (s : Game) : Game :=
  mkGame (obstacles s) (particles s) (dino s) (camera_x s) (camera_y s)
    (gameStarted s) (gameOver s) v (highScore s) (speed s) (jumpVelocity s)
    (isJumping s) (isDucking s) (obstacleTimer s) (lastTime s) (storage s)
    (rng s).

Definition set_highScore (v : Z) (s : Game) : Game :=
  mkGame (obstacles s) (particles s) (dino s) (camera_x s) (camera_y s)
    (gameStarted s) (gameOver s) (score s) v (speed s) (jumpVelocity s)
    (isJumping s) (isDucking s) (obstacleTimer s) (lastTime s) (storage s)
    (rng s).

Definition set_speed (v : Q) (s : Game) : Game :=
  mkGame (obstacles s) (particles s) (dino s) (camera_x s) (camera_y s)
    (gameStarted s) (gameOver s) (score s) (highScore s) v (jumpVelocity s)
    (isJumping s) (isDucking s) (obstacleTimer s) (lastTime s) (storage s)
    (rng s).

Definition set_jumpVelocity (v : Q) (s : Game) : Game :=
  mkGame (obstacles s) (particles s) (dino s) (camera_x s) (camera_y s)
    (gameStarted s) (gameOver s) (score s) (highScore s) (speed s) v
    (isJumping s) (isDucking s) (obstacleTimer s) (lastTime s) (storage s)
    (rng s).

Definition set_isJumping (v : bool) (s : Game) : Game :=
  mkGame (obstacles s) (particles s) (dino s) (camera_x s) (camera_y s)
    (gameStarted s) (gameOver s) (score s) (highScore s) (speed s)
    (jumpVelocity s) v (isDucking s) (obstacleTimer s) (lastTime s)
    (storage s) (rng s).

Definition set_isDucking (v : bool) (s : Game) : Game :=
  mkGame (obstacles s) (particles s) (dino s) (camera_x s) (camera_y s)
    (gameStarted s) (gameOver s) (score s) (highScore s) (speed s)
    (jumpVelocity s) (isJumping s) v (obstacleTimer s) (lastTime s)
    (storage s) (rng s).

Definition set_obstacleTimer (v : Q) (s : Game) : Game :=
  mkGame (obstacles s) (particles s) (dino s) (camera_x s) (camera_y s)
    (gameStarted s) (gameOver s) (score s) (highScore s) (speed s)
    (jumpVelocity s) (isJumping s) (isDucking s) v (lastTime s) (storage s)
    (rng s).

Definition set_lastTime (v : Q) (s : Game) : Game :=
  mkGame (obstacles s) (particles s) (dino s) (camera_x s) (camera_y s)
    (gameStarted s) (gameOver s) (score s) (highScore s) (speed s)
    (jumpVelocity s) (isJumping s) (isDucking s) (obstacleTimer s) v
    (storage s) (rng s).

Definition set_storage (v : option Z) (s : Game) : Game :=
  mkGame (obstacles s) (particles s) (dino s) (camera_x s) (camera_y s)
    (gameStarted s) (gameOver s) (score s) (highScore s) (speed s)
    (jumpVelocity s) (isJumping s) (isDucking s) (obstacleTimer s)
    (lastTime s) v (rng s).

Definition set_rng (v : nat) (s : Game) : Game :=
  mkGame (obstacles s) (particles s) (dino s) (camera_x s) (camera_y s)
    (gameStarted s) (gameOver s) (score s) (highScore s) (speed s)
    (jumpVelocity s) (isJumping s) (isDucking s) (obstacleTimer s)
    (lastTime s) (storage s) v.

Definition set_pos_y (v : Q) (s : Game) : Game :=
  set_dino (mkDino v (scale_y (dino s)) (visible (dino s))) s.
Definition set_scale_y (v : Q) (s : Game) : Game :=
  set_dino (mkDino (pos_y (dino s)) v (visible (dino s))) s.
Definition set_visible (v : bool) (s : Game) : Game :=
  set_dino (mkDino (pos_y (dino s)) (scale_y (dino s)) v) s.

(** ** The program *)

Section Program.

(** The stream read by [Math.random()]. *)
Variable rand : nat -> Q.

(** [Math.random()]: the next draw, and the state with one more draw made. *)
Definition random (s : Game) : Q * Game :=
  (rand (rng s), set_rng (S (rng s)) s).

(** *** Obstacles *)

(** [createCactus]: the draws size the trunk and decide on the arms; the
    collidable data are fixed. *)
Definition createCactus (s : Game) : Obstacle * Game :=
  let '(_, s) := random s in
  let '(armL, s) := random s in
  let s := if Qltb (3 # 10) armL then snd (random (snd (random s))) else s in
  let '(armR, s) := random s in
  let s := if Qltb (5 # 10) armR then snd (random s) else s in
  (mkObstacle cactus 0 groundY (8 # 10) (25 # 10) 0 false, s).

(** [createDoubleCactus]: two cacti as children of one group. *)
Definition createDoubleCactus (s : Game) : Obstacle * Game :=
  let '(_, s) := createCactus s in
  let '(_, s) := createCactus s in
  (mkObstacle doubleCactus 0 groundY 2 (25 # 10) 0 false, s).

(** [createPterodactyl]: flies high or low. *)
Definition createPterodactyl (s : Game) : Obstacle * Game :=
  let '(r, s) := random s in
  let flyHeight := if Qltb (5 # 10) r then groundY + 3 else groundY + (12 # 10) in
  (mkObstacle pterodactyl 0 flyHeight (12 # 10) (15 # 10) 0 false, s).

Definition place_x (x : Q) (o : Obstacle) : Obstacle :=
  mkObstacle (o_type o) x (o_y o) (o_width o) (o_height o) (o_wingPhase o)
    (o_passed o).

Definition createObstacle (s : Game) : Game :=
  let '(type, s) := random s in
  let '(obstacle, s) :=
    if Qltb type (6 # 10) then createCactus s
    else if Qltb type (85 # 100) then createDoubleCactus s
    else createPterodactyl s in
  set_obstacles (obstacles s ++ [place_x 20 obstacle]) s.

(** *** Particle bursts *)

Definition zero3 : Vec3 := mkVec3 0 0 0.

Definition push_particle (p : Particle) (s : Game) : Game :=
  set_particles (particles s ++ [p]) s.

(** One turn of the loop of [createJumpParticles]. *)
Definition createJumpParticle (s : Game) : Game :=
  let '(r1, s) := random s in
  let '(r2, s) := random s in
  let '(r3, s) := random s in
  let pos := mkVec3 (dino_x + (r1 - (5 # 10)) * 1)
                    (pos_y (dino s) + r2 * (5 # 10))
                    ((r3 - (5 # 10)) * 1) in
  let '(r4, s) := random s in
  let '(r5, s) := random s in
  let '(r6, s) := random s in
  let vel := mkVec3 ((r4 - (5 # 10)) * (2 # 10))
                    (r5 * (15 # 100))
                    ((r6 - (5 # 10)) * (2 # 10)) in
  push_particle (mkParticle pos vel None 1 zero3 1) s.

Definition createJumpParticles (s : Game) : Game :=
  Nat.iter 15 createJumpParticle s.

(** One turn of the loop of [createDeathParticles]; the first draw picks the
    colour. *)
Definition createDeathParticle (s : Game) : Game :=
  let '(_, s) := random s in
  let pos := mkVec3 dino_x (pos_y (dino s) + 1) 0 in
  let '(r1, s) := random s in
  let '(r2, s) := random s in
  let '(r3, s) := random s in
  let vel := mkVec3 ((r1 - (5 # 10)) * (4 # 10))
                    (r2 * (3 # 10))
                    ((r3 - (5 # 10)) * (4 # 10)) in
  let '(r4, s) := random s in
  let '(r5, s) := random s in
  let '(r6, s) := random s in
  let rot := mkVec3 ((r4 - (5 # 10)) * (3 # 10))
                    ((r5 - (5 # 10)) * (3 # 10))
                    ((r6 - (5 # 10)) * (3 # 10)) in
  push_particle (mkParticle pos vel (Some rot) 1 zero3 1) s.

Definition createDeathParticles (s : Game) : Game :=
  Nat.iter 40 createDeathParticle s.

(** One turn of the loop of [createScoreParticles]. *)
Definition createScoreParticle (s : Game) : Game :=
  let '(r1, s) := random s in
  let pos := mkVec3 (dino_x + 1) (pos_y (dino s) + (15 # 10))
                    ((r1 - (5 # 10)) * (5 # 10)) in
  let '(r2, s) := random s in
  let '(r3, s) := random s in
  let '(r4, s) := random s in
  let vel := mkVec3 ((5 # 100) + r2 * (1 # 10))
                    ((1 # 10) + r3 * (15 # 100))
                    ((r4 - (5 # 10)) * (1 # 10)) in
  push_particle (mkParticle pos vel None 1 zero3 1) s.

Definition createScoreParticles (s : Game) : Game :=
  Nat.iter 8 createScoreParticle s.

(** *** Input handlers *)

Definition jump (s : Game) : Game :=
  if negb (isJumping s) && negb (gameOver s) then
    createJumpParticles (set_jumpVelocity (35 # 100) (set_isJumping true s))
  else s.

Definition startGame (s : Game) : Game :=
  set_speed baseSpeed (set_score 0 (set_gameOver false (set_gameStarted true s))).

Definition restartGame (s : Game) : Game :=
  let s := set_obstacles [] s in
  let s := set_particles [] s in
  let s := set_pos_y baseY s in
  let s := set_scale_y 1 s in
  let s := set_visible true s in
  let s := set_isJumping false s in
  let s := set_isDucking false s in
  let s := set_jumpVelocity 0 s in
  let s := set_obstacleTimer 0 s in
  startGame s.

Definition endGame (s : Game) : Game :=
  let s := set_gameOver true s in
  let s := createDeathParticles s in
  let s := set_visible false s in
  if (highScore s <? score s)%Z then
    set_storage (Some (score s)) (set_highScore (score s) s)
  else s.

(** The posture taken on a duck press. *)
Definition duck (s : Game) : Game :=
  set_pos_y (baseY - (5 # 10)) (set_scale_y (5 # 10) (set_isDucking true s)).

Inductive KeyCode := Space | ArrowUp | ArrowDown | OtherKey.

Definition is_jump_key (c : KeyCode) : bool :=
  match c with Space | ArrowUp => true | _ => false end.
Definition is_down_key (c : KeyCode) : bool :=
  match c with ArrowDown => true | _ => false end.

Definition onKeyDown (c : KeyCode) (s : Game) : Game :=
  let s :=
    if is_jump_key c then
      if negb (gameStarted s) then startGame s
      else if gameOver s then restartGame s
      else jump s
    else s in
  if is_down_key c && gameStarted s && negb (gameOver s) then duck s else s.

Definition onKeyUp (c : KeyCode) (s : Game) : Game :=
  if is_down_key c then
    let s := set_scale_y 1 (set_isDucking false s) in
    if negb (isJumping s) then set_pos_y baseY s else s
  else s.

Definition onPointerDown (s : Game) : Game :=
  if negb (gameStarted s) then startGame s
  else if gameOver s then restartGame s
  else if negb (isJumping s) then duck s
  else s.

Definition onPointerUp (s : Game) : Game :=
  if negb (gameStarted s) || gameOver s then s
  else
    let s :=
      if isDucking s then
        set_pos_y baseY (set_scale_y 1 (set_isDucking false s))
      else s in
    jump s.

(** *** Collision *)

Record Box := mkBox { b_x : Q; b_y : Q; b_width : Q; b_height : Q }.

(** The player's box, as [checkCollision] builds it. *)
Definition dinoBox (s : Game) : Box :=
  mkBox (dino_x - (4 # 10)) (pos_y (dino s)) (12 # 10)
        (if isDucking s then 1 else 2).

Definition obsBox (o : Obstacle) : Box :=
  mkBox (o_x o - o_width o / 2) (o_y o) (o_width o) (o_height o).

Definition overlap (a b : Box) : bool :=
  negb (Qltb (b_x a + b_width a) (b_x b)
        || Qltb (b_x b + b_width b) (b_x a)
        || Qltb (b_y a + b_height a) (b_y b)
        || Qltb (b_y b + b_height b) (b_y a)).

Definition checkCollision (s : Game) (o : Obstacle) : bool :=
  overlap (dinoBox s) (obsBox o).

(** *** The frame callback *)

(** [Math.max(50, 100 - score * 0.03)] *)
Definition spawnInterval (sc : Z) : Q :=
  Qmax 50 (100 - inject_Z sc * (3 # 100)).

(** [speed = baseSpeed + score * 0.00005] *)
Definition update_speed (s : Game) : Game :=
  set_speed (baseSpeed + inject_Z (score s) * (5 # 100000)) s.

(** The spawner. *)
Definition spawn (delta : Q) (s : Game) : Game :=
  let s := set_obstacleTimer (obstacleTimer s + delta) s in
  if Qltb (spawnInterval (score s)) (obstacleTimer s) then
    set_obstacleTimer 0 (createObstacle s)
  else s.

(** [obs.position.x -= speed * delta], and the wing phase of a pterodactyl. *)
Definition move (dx delta : Q) (o : Obstacle) : Obstacle :=
  mkObstacle (o_type o) (o_x o - dx) (o_y o) (o_width o) (o_height o)
    (match o_type o with
     | pterodactyl => o_wingPhase o + (2 # 10) * delta
     | _ => o_wingPhase o
     end)
    (o_passed o).

Definition mark_passed (o : Obstacle) : Obstacle :=
  mkObstacle (o_type o) (o_x o) (o_y o) (o_width o) (o_height o)
    (o_wingPhase o) true.

(** The test that scores an obstacle. *)
Definition scores (o : Obstacle) : bool :=
  negb (o_passed o) && Qltb (o_x o) (dino_x - 1).

(** The body of the obstacle loop at index [i].  [obstacles[i]] always exists
    there; the [None] branch is never taken (see [obstacle_loop_spec]). *)
Definition obstacle_body (delta : Q) (i : nat) (s : Game) : Game :=
  match obstacles s !! i with
  | None => s
  | Some obs =>
      let obs := move (speed s * delta) delta obs in
      let hit := scores obs in
      let obs := if hit then mark_passed obs else obs in
      let s := set_obstacles (<[i := obs]> (obstacles s)) s in
      let s :=
        if hit then createScoreParticles (set_score (score s + 100) s)
        else s in
      let s := if checkCollision s obs then endGame s else s in
      if Qltb (o_x obs) (-15) then
        set_obstacles (delete i (obstacles s)) s
      else s
  end.

(** [for (let i = n - 1; i >= 0; i--)] *)
Fixpoint obstacle_loop (delta : Q) (n : nat) (s : Game) : Game :=
  match n with
  | O => s
  | S i => obstacle_loop delta i (obstacle_body delta i s)
  end.

(** The jump integrator. *)
Definition jump_physics (delta : Q) (s : Game) : Game :=
  if isJumping s then
    let s := set_pos_y (pos_y (dino s) + jumpVelocity s * delta) s in
    let s := set_jumpVelocity (jumpVelocity s - gravity * delta) s in
    if Qleb (pos_y (dino s)) baseY then
      createJumpParticles
        (set_jumpVelocity 0 (set_isJumping false (set_pos_y baseY s)))
    else s
  else s.

(** The playing branch of [animate]. *)
Definition playing (delta : Q) (s : Game) : Game :=
  let s := update_speed s in
  let s := spawn delta s in
  let s := obstacle_loop delta (length (obstacles s)) s in
  jump_physics delta s.

Definition add3 (a b : Vec3) : Vec3 :=
  mkVec3 (vx a + vx b) (vy a + vy b) (vz a + vz b).

(** What one frame does to one particle; the frame's delta is not used. *)
Definition age (p : Particle) : Particle :=
  let pos := add3 (p_pos p) (p_velocity p) in
  let vel := mkVec3 (vx (p_velocity p)) (vy (p_velocity p) - (8 # 1000))
                    (vz (p_velocity p)) in
  let life := p_life p - (2 # 100) in
  let rot :=
    match p_rotSpeed p with
    | Some r => add3 (p_rotation p) r
    | None => p_rotation p
    end in
  mkParticle pos vel (p_rotSpeed p) life rot life.

(** [p.userData.life <= 0] *)
Definition dead (p : Particle) : bool := Qleb (p_life p) 0.

(** The body of the particle loop at index [i]. *)
Definition particle_body (i : nat) (s : Game) : Game :=
  match particles s !! i with
  | None => s
  | Some p =>
      let p := age p in
      let s := set_particles (<[i := p]> (particles s)) s in
      if dead p then set_particles (delete i (particles s)) s else s
  end.

Fixpoint particle_loop (n : nat) (s : Game) : Game :=
  match n with
  | O => s
  | S i => particle_loop i (particle_body i s)
  end.

(** The camera: shaken while the death burst lasts, settling otherwise. *)
Definition camera_update (s : Game) : Game :=
  if gameOver s && negb (Nat.eqb (length (particles s)) 0) then
    let '(r1, s) := random s in
    let s := set_camera ((r1 - (5 # 10)) * (2 # 10)) (camera_y s) s in
    let '(r2, s) := random s in
    set_camera (camera_x s) (2 + (r2 - (5 # 10)) * (2 # 10)) s
  else
    let s := set_camera (camera_x s + (0 - camera_x s) * (1 # 10))
                        (camera_y s) s in
    set_camera (camera_x s) (camera_y s + (2 - camera_y s) * (1 # 10)) s.

(** [Math.min((time - lastTime) / 16.67, 2)] *)
Definition frame_delta (time : Q) (s : Game) : Q :=
  Qmin ((time - lastTime s) / (1667 # 100)) 2.

Definition animate (time : Q) (s : Game) : Game :=
  let delta := frame_delta time s in
  let s := set_lastTime time s in
  let s := if gameStarted s && negb (gameOver s) then playing delta s else s in
  let s := particle_loop (length (particles s)) s in
  camera_update s.

(** *** Runs *)

Inductive Event :=
| KeyDown (c : KeyCode)
| KeyUp (c : KeyCode)
| PointerDown
| PointerUp
| Frame (time : Q).

Definition step (e : Event) (s : Game) : Game :=
  match e with
  | KeyDown c => onKeyDown c s
  | KeyUp c => onKeyUp c s
  | PointerDown => onPointerDown s
  | PointerUp => onPointerUp s
  | Frame time => animate time s
  end.

(** The state [init] leaves, given what [localStorage] holds: nothing has
    moved, and [createStars] has made its 600 draws. *)
Definition initial (stored : option Z) : Game :=
  mkGame [] [] (mkDino baseY 1 true) 0 2 false false 0
    (match stored with Some v => v | None => 0%Z end)
    (15 # 100) 0 false false 0 0 stored 600.

Definition run (es : list Event) (s : Game) : Game :=
  fold_left (fun s e => step e s) es s.

Inductive reachable : Game -> Prop :=
| reachable_initial stored : reachable (initial stored)
| reachable_step e s : reachable s -> reachable (step e s).

(** *** The loops and the frame, read in parts *)

(** What the loop makes of one obstacle: moved, and marked if it scores. *)
Definition advance (spd delta : Q) (o : Obstacle) : Obstacle :=
  let o := move (spd * delta) delta o in
  if scores o then mark_passed o else o.

(** [obs.position.x < -15] *)
Definition offscreen (o : Obstacle) : bool := Qltb (o_x o) (-15).

(** What one turn of the obstacle loop does to the rest of the state. *)
Definition effects (delta : Q) (o : Obstacle) (s : Game) : Game :=
  let s1 :=
    if scores (move (speed s * delta) delta o) then
      createScoreParticles (set_score (score s + 100) s)
    else s in
  if checkCollision s1 (advance (speed s) delta o) then endGame s1
  else s1.

(** The state the obstacle loop starts from. *)
Definition pre_loop (delta : Q) (s : Game) : Game :=
  spawn delta (update_speed s).

(** The state a frame has reached when it turns to the particles. *)
Definition gameplay (time : Q) (s : Game) : Game :=
  let delta := frame_delta time s in
  let s := set_lastTime time s in
  if gameStarted s && negb (gameOver s) then playing delta s else s.

(** The obstacles the loop of this frame visits: the list as the spawner left
    it, or none when the game is not being played. *)
Definition visited (time : Q) (s : Game) : list Obstacle :=
  if gameStarted s && negb (gameOver s) then
    obstacles (pre_loop (frame_delta time s) (set_lastTime time s))
  else [].

End Program.

Arguments random rand s /.

(** ** Readings of the state *)

(** The best score as [localStorage] holds it; nothing stored reads as [0]. *)
Definition stored_best (s : Game) : Z :=
  match storage s with Some v => v | None => 0%Z end.

(** The best score in memory is the one in [localStorage]. *)
Definition best_synced (s : Game) : Prop := highScore s = stored_best s.

(** A burst changes nothing but the particle list, which it extends, and the
    count of draws. *)
Definition burst (n : nat) (s s' : Game) : Prop :=
  exists ps k, length ps = n /\
    s' = set_particles (particles s ++ ps) (set_rng k s).

(** [s'] has the particles of [s], in order, and maybe new ones after them. *)
Definition more_particles (s s' : Game) : Prop :=
  exists new, particles s' = particles s ++ new.

(** The fields that neither a burst, nor scoring, nor the end of the run
    touches. *)
Definition same_player (s s' : Game) : Prop :=
  pos_y (dino s') = pos_y (dino s) /\ scale_y (dino s') = scale_y (dino s)
  /\ isJumping s' = isJumping s /\ isDucking s' = isDucking s
  /\ jumpVelocity s' = jumpVelocity s /\ speed s' = speed s
  /\ gameStarted s' = gameStarted s /\ obstacleTimer s' = obstacleTimer s
  /\ lastTime s' = lastTime s /\ obstacles s' = obstacles s.

(** The player's own fields. *)
Definition same_dino (s s' : Game) : Prop :=
  pos_y (dino s') = pos_y (dino s) /\ scale_y (dino s') = scale_y (dino s)
  /\ isJumping s' = isJumping s /\ isDucking s' = isDucking s
  /\ jumpVelocity s' = jumpVelocity s.

(** The obstacles that stay after a turn of the loop over [l]. *)
Definition survivors (spd delta : Q) (l : list Obstacle) : list Obstacle :=
  List.filter (fun o => negb (offscreen o)) (map (advance spd delta) l).

(** The obstacles of [l] that score in this frame. *)
Definition newly_passed (spd delta : Q) (l : list Obstacle) : list Obstacle :=
  List.filter (fun o => scores (move (spd * delta) delta o)) l.

(** The number of obstacles not yet passed. *)
Definition unpassed (l : list Obstacle) : nat :=
  length (List.filter (fun o => negb (o_passed o)) l).

(** The particles that stay after a turn of the particle loop over [l]. *)
Definition aged (l : list Particle) : list Particle :=
  List.filter (fun p => negb (dead p)) (map age l).

(** A grounded player has no vertical velocity. *)
Definition grounded_still (s : Game) : Prop :=
  isJumping s = false -> jumpVelocity s = 0.

(** The player is at or above the base height, or exactly at the duck
    height. *)
Definition height_ok (s : Game) : Prop :=
  baseY <= pos_y (dino s) \/ pos_y (dino s) = baseY - (5 # 10).

(** Before the first start nothing has been spawned, emitted or timed. *)
Definition idle_clean (s : Game) : Prop :=
  gameStarted s = false ->
  obstacles s = [] /\ particles s = [] /\ obstacleTimer s = 0
  /\ gameOver s = false.

(** The inputs that start the game. *)
Definition is_start (e : Event) : bool :=
  match e with
  | KeyDown Space | KeyDown ArrowUp | PointerDown => true
  | _ => false
  end.

(** The input [e] begins a run in [s]: a start input while the game has not
    been started, or is over. *)
Definition begins_run (e : Event) (s : Game) : bool :=
  is_start e && (negb (gameStarted s) || gameOver s).

(** The events [es], from [s] on, stay within one run: none of them begins
    a run in the state it arrives in. *)
Fixpoint within_run (rand : nat -> Q) (es : list Event) (s : Game) : bool :=
  match es with
  | [] => true
  | e :: es => negb (begins_run e s) && within_run rand es (step rand e s)
  end.

(** The number of obstacles the spawner makes in the event [e]: what a frame
    adds to the list before its obstacle loop starts. *)
Definition spawned_by (rand : nat -> Q) (e : Event) (s : Game) : nat :=
  match e with
  | Frame time => length (visited rand time s) - length (obstacles s)
  | _ => 0
  end.

(** The number of obstacles made over the events [es], from [s] on. *)
Fixpoint spawned_in (rand : nat -> Q) (es : list Event) (s : Game) : nat :=
  match es with
  | [] => 0
  | e :: es => spawned_by rand e s + spawned_in rand es (step rand e s)
  end.

(** The score, with 100 more for each obstacle of the list not yet passed. *)
Definition credit (s : Game) : Z :=
  (score s + 100 * Z.of_nat (unpassed (obstacles s)))%Z.

(** ** Concrete runs *)

(** Two streams of draws: all 0, and all 3/4. *)
Definition draws0 : nat -> Q := fun _ => 0.
Definition draws34 : nat -> Q := fun _ => 3 # 4.

(** [n] frames 34 ms apart, the first at [34 * from] ms; each has delta 2. *)
Definition frames (from n : nat) : list Event :=
  map (fun k => Frame (inject_Z (Z.of_nat k) * 34)) (seq from n).

(** The game started, 125 frames played without input, then the jump key:
    the first cactus, spawned in frame 51, is about to reach the player. *)
Definition to_the_cactus : list Event :=
  KeyDown Space :: frames 1 125 ++ [KeyDown Space].

(** The game started, then the down arrow pressed. *)
Definition ducked : Game :=
  run draws0 [KeyDown Space; KeyDown ArrowDown] (initial None).

(** The game started, then a jump. *)
Definition jumped : Game :=
  run draws34 [KeyDown Space; KeyDown Space] (initial None).

(** A game being played: the player has just jumped, and a cactus that has
    not been passed stands at the player's horizontal position. *)
Definition jump_into_cactus : Game :=
  mkGame [mkObstacle cactus (-4) groundY (8 # 10) (25 # 10) 0 false] []
    (mkDino baseY 1 true) 0 2 true false 0 0 (15 # 100) (35 # 100)
    true false 0 0 None 600.

(** A game being played, the player on the ground, with two cacti that have
    not been passed: the first of the list just right of the scoring line,
    the second at the player's horizontal position. *)
Definition two_cacti : Game :=
  mkGame [mkObstacle cactus (-49 # 10) groundY (8 # 10) (25 # 10) 0 false;
          mkObstacle cactus (-4) groundY (8 # 10) (25 # 10) 0 false] []
    (mkDino baseY 1 true) 0 2 true false 0 0 (15 # 100) 0
    false false 0 0 None 600.

(** A game not yet started whose score, speed, obstacle list and timer are
    not those of the initial state: what [startGame] writes, and what it
    does not, shows on it. *)
Definition stale_idle : Game :=
  mkGame [mkObstacle cactus 3 groundY (8 # 10) (25 # 10) 0 false] []
    (mkDino baseY 1 true) 0 2 false false 300 0 (165 # 1000) 0
    false false 7 0 None 600.

(** A game started with [best] stored, its score set to [sc]. *)
Definition ends_at (sc : Z) (best : option Z) : Game :=
  set_score sc (step draws0 (KeyDown Space) (initial best)).

(** From the game just started: 120 frames without input, a jump, and 14
    frames more.  The first cactus, spawned in frame 51, passes under the
    player; a second one is spawned in frame 102. *)
Definition over_the_cactus : list Event :=
  frames 1 120 ++ KeyDown Space :: frames 121 14.

(** The state in which the run of [to_the_cactus] ends, one frame later. *)
Definition crashed : Game :=
  run draws0 (to_the_cactus ++ [Frame 4284]) (initial None).

(** A game just started. *)
Definition started : Game := step draws0 (KeyDown Space) (initial None).

(** A game just started whose timer stands at 100, as 50 frames of delta 2
    leave it: the next such frame spawns. *)
Definition spawn_due : Game := set_obstacleTimer 100 started.

(** A low pterodactyl at the player's horizontal position. *)
Definition low_pterodactyl : Obstacle :=
  mkObstacle pterodactyl (-4) (groundY + (12 # 10)) (12 # 10) (15 # 10) 0
    false.

(** ** Further readings *)

(** The distance the statements on collisions keep from every threshold of
    [checkCollision], so that they hold whichever way a sum that falls next
    to a threshold is rounded. *)
Definition margin : Q := 1 # 1000.

(** The obstacle's box and the player's overlap horizontally, by the margin
    at least. *)
Definition x_within (o : Obstacle) : Prop :=
  o_x o - o_width o / 2 <= dino_x + (8 # 10) - margin
  /\ dino_x - (4 # 10) + margin <= o_x o + o_width o / 2.

(** The obstacle's box is right or left of the player's, by the margin at
    least. *)
Definition x_apart (o : Obstacle) : Prop :=
  dino_x + (8 # 10) + margin <= o_x o - o_width o / 2
  \/ o_x o + o_width o / 2 <= dino_x - (4 # 10) - margin.

(** A particle as the bursts create it: full life, opaque. *)
Definition fresh (p : Particle) : Prop := p_life p = 1 /\ p_opacity p = 1.

(** [s'] is [s] with [n] fresh particles appended and [d] more draws made. *)
Definition drawn_burst (n d : nat) (s s' : Game) : Prop :=
  exists ps, length ps = n /\ Forall fresh ps /\
    s' = set_particles (particles s ++ ps) (set_rng (d + rng s) s).

(** [s'] has the particles of [s] and then fresh ones. *)
Definition fresh_more (s s' : Game) : Prop :=
  exists new, Forall fresh new /\ particles s' = particles s ++ new.

(** A particle of a reachable state: alive, at most full life, as opaque as
    alive. *)
Definition particle_ok (p : Particle) : Prop :=
  0 < p_life p /\ p_life p <= 1 /\ p_opacity p = p_life p.

(** An obstacle of a reachable state: not off-screen, and passed if it is
    behind the scoring line. *)
Definition obstacle_placed (o : Obstacle) : Prop :=
  -15 <= o_x o /\ (o_x o < dino_x - 1 -> o_passed o = true).

(** The collidable data of each kind of obstacle. *)
Definition kind_ok (o : Obstacle) : Prop :=
  match o_type o with
  | cactus =>
      o_y o = groundY /\ o_width o = (8 # 10) /\ o_height o = (25 # 10)
  | doubleCactus =>
      o_y o = groundY /\ o_width o = 2 /\ o_height o = (25 # 10)
  | pterodactyl =>
      (o_y o = groundY + 3 \/ o_y o = groundY + (12 # 10))
      /\ o_width o = (12 # 10) /\ o_height o = (15 # 10)
  end.

(** The posture of the player in a reachable state. *)
Definition posture_ok (s : Game) : Prop :=
  scale_y (dino s) = (if isDucking s then 5 # 10 else 1)
  /\ (isJumping s = false -> isDucking s = false -> pos_y (dino s) = baseY)
  /\ (gameStarted s = false -> isJumping s = false /\ isDucking s = false)
  /\ (gameOver s = true -> gameStarted s = true).

(** The body of the ground-line loop of [animate], on the line's
    [position.x]: scrolled left, and wrapped by 80 past -40. *)
Definition scroll_line (spd delta x : Q) : Q :=
  let x := x - spd * delta in
  if Qltb x (-40) then x + 80 else x.

(** [groundLines.forEach] *)
Definition scroll_lines (spd delta : Q) (xs : list Q) : list Q :=
  map (scroll_line spd delta) xs.

(** The lines [createGround] lays: 20 dashes from -30, 4 apart, then 15
    markers from -35, 6 apart. *)
Definition groundLines : list Q :=
  map (fun i => -30 + inject_Z (Z.of_nat i) * 4) (seq 0 20)
  ++ map (fun i => -35 + inject_Z (Z.of_nat i) * 6) (seq 0 15).

(** An obstacle as the spawner makes it. *)
Definition spawned_ok (r : Q) (o : Obstacle) : Prop :=
  o_x o = 20 /\ o_passed o = false /\ kind_ok o
  /\ o_type o
     = (if Qltb r (6 # 10) then cactus
        else if Qltb r (85 # 100) then doubleCactus else pterodactyl).

(** The score is a multiple of 100, not negative, and the speed is the base
    speed plus 0.00005 times such a multiple. *)
Definition score_ok (s : Game) : Prop :=
  (exists k : nat, score s = (100 * Z.of_nat k)%Z)
  /\ (exists k : nat,
        speed s == baseSpeed + inject_Z (100 * Z.of_nat k) * (5 # 100000)).

(** The camera is within 0.1 of its rest position, (0, 2). *)
Definition camera_near (s : Game) : Prop :=
  - (1 # 10) <= camera_x s <= 1 # 10
  /\ 19 # 10 <= camera_y s <= 21 # 10.

(** ** Proofs *)

(** Projections through field updates. *)
Ltac game_simpl :=
  cbn [obstacles particles dino camera_x camera_y gameStarted gameOver score
       highScore speed jumpVelocity isJumping isDucking obstacleTimer lastTime
       storage rng pos_y scale_y visible
       set_pos_y set_scale_y set_visible set_obstacles set_particles
       set_dino set_camera set_gameStarted set_gameOver set_score
       set_highScore set_speed set_jumpVelocity set_isJumping set_isDucking
       set_obstacleTimer set_lastTime set_storage set_rng fst snd] in *.

(** *** Comparisons *)

Lemma Qleb_le a b : Qleb a b = true <-> a <= b.
Proof. apply Qle_bool_iff. Qed.

Lemma Qleb_gt a b : Qleb a b = false <-> b < a.
Proof.
  unfold Qleb. rewrite <- not_true_iff_false, Qle_bool_iff.
  split; [apply Qnot_le_lt | apply Qlt_not_le].
Qed.

Lemma Qltb_lt a b : Qltb a b = true <-> a < b.
Proof. unfold Qltb. rewrite negb_true_iff. apply Qleb_gt. Qed.

Lemma Qltb_ge a b : Qltb a b = false <-> b <= a.
Proof. unfold Qltb. rewrite negb_false_iff. apply Qleb_le. Qed.

(** ** Basic facts *)

Lemma burst_refl s : burst 0 s s.
Proof.
  exists [], (rng s). split; [done|]. destruct s; cbn. by rewrite app_nil_r.
Qed.

Lemma burst_trans n m s1 s2 s3 :
  burst n s1 s2 -> burst m s2 s3 -> burst (n + m) s1 s3.
Proof.
  intros (ps & k & Hn & ->) (qs & k' & Hm & ->).
  exists (ps ++ qs), k'. split; [rewrite length_app; lia|].
  unfold set_particles, set_rng; cbn. by rewrite app_assoc.
Qed.

Lemma burst_iter f k n s :
  (forall s, burst k s (f s)) -> burst (n * k) s (Nat.iter n f s).
Proof.
  intros Hf. induction n as [|n IH].
  - apply burst_refl.
  - change (burst (k + n * k) s (f (Nat.iter n f s))).
    rewrite Nat.add_comm. eapply burst_trans; [apply IH | apply Hf].
Qed.

Section Bursts.
Variable rand : nat -> Q.

Lemma createJumpParticle_burst s : burst 1 s (createJumpParticle rand s).
Proof. eexists [_], _. split; [done|]. reflexivity. Qed.

Lemma createDeathParticle_burst s : burst 1 s (createDeathParticle rand s).
Proof. eexists [_], _. split; [done|]. reflexivity. Qed.

Lemma createScoreParticle_burst s : burst 1 s (createScoreParticle rand s).
Proof. eexists [_], _. split; [done|]. reflexivity. Qed.

Lemma createJumpParticles_burst s : burst 15 s (createJumpParticles rand s).
Proof. apply (burst_iter _ 1 15), createJumpParticle_burst. Qed.

Lemma createDeathParticles_burst s : burst 40 s (createDeathParticles rand s).
Proof. apply (burst_iter _ 1 40), createDeathParticle_burst. Qed.

Lemma createScoreParticles_burst s : burst 8 s (createScoreParticles rand s).
Proof. apply (burst_iter _ 1 8), createScoreParticle_burst. Qed.

End Bursts.

(** ** The loops of [animate], read as list functions *)

Lemma iter_commute {A} (f g : A -> A) n x :
  (forall x, f (g x) = g (f x)) -> Nat.iter n f (g x) = g (Nat.iter n f x).
Proof.
  intros H. induction n as [|n IH]; [done|].
  change (f (Nat.iter n f (g x)) = g (f (Nat.iter n f x))).
  by rewrite IH, H.
Qed.

Section Properties.
Variable rand : nat -> Q.

Lemma createScoreParticles_set_obstacles l s :
  createScoreParticles rand (set_obstacles l s)
  = set_obstacles l (createScoreParticles rand s).
Proof.
  apply (iter_commute (createScoreParticle rand) (set_obstacles l)).
  reflexivity.
Qed.

Lemma createDeathParticles_set_obstacles l s :
  createDeathParticles rand (set_obstacles l s)
  = set_obstacles l (createDeathParticles rand s).
Proof.
  apply (iter_commute (createDeathParticle rand) (set_obstacles l)).
  reflexivity.
Qed.

Opaque createJumpParticles createDeathParticles createScoreParticles.

Lemma endGame_set_obstacles l s :
  endGame rand (set_obstacles l s) = set_obstacles l (endGame rand s).
Proof.
  unfold endGame.
  change (set_gameOver true (set_obstacles l s))
    with (set_obstacles l (set_gameOver true s)).
  rewrite createDeathParticles_set_obstacles.
  destruct (createDeathParticles rand (set_gameOver true s)) eqn:E.
  cbn. by destruct (_ <? _)%Z.
Qed.

Lemma checkCollision_set_obstacles l s o :
  checkCollision (set_obstacles l s) o = checkCollision s o.
Proof. reflexivity. Qed.

Lemma effects_set_obstacles delta o l s :
  effects rand delta o (set_obstacles l s) = set_obstacles l (effects rand delta o s).
Proof.
  unfold effects.
  change (speed (set_obstacles l s)) with (speed s).
  change (set_score (score (set_obstacles l s) + 100) (set_obstacles l s))
    with (set_obstacles l (set_score (score s + 100) s)).
  rewrite createScoreParticles_set_obstacles.
  destruct (scores _).
  all: rewrite checkCollision_set_obstacles.
  all: destruct (checkCollision _ _).
  all: by rewrite ?endGame_set_obstacles.
Qed.

Lemma effects_obstacles delta o s :
  obstacles (effects rand delta o s) = obstacles s.
Proof.
  unfold effects, endGame.
  destruct (createScoreParticles_burst rand (set_score (score s + 100) s))
    as (ps & k & _ & ->).
  destruct (scores _).
  - destruct (checkCollision _ _); [|done].
    destruct (createDeathParticles_burst rand (set_gameOver true
      (set_particles (particles (set_score (score s + 100) s) ++ ps)
        (set_rng k (set_score (score s + 100) s))))) as (qs & k' & _ & ->).
    cbn. by destruct (_ <? _)%Z.
  - destruct (checkCollision _ _); [|done].
    destruct (createDeathParticles_burst rand (set_gameOver true s))
      as (qs & k' & _ & ->).
    cbn. by destruct (_ <? _)%Z.
Qed.

Lemma insert_middle {A} (l1 l2 : list A) x y :
  <[length l1 := y]> (l1 ++ x :: l2) = l1 ++ y :: l2.
Proof. rewrite insert_app_r_alt by lia. by rewrite Nat.sub_diag. Qed.

Lemma set_obstacles_twice l l' s :
  set_obstacles l (set_obstacles l' s) = set_obstacles l s.
Proof. reflexivity. Qed.

Lemma obstacles_set_obstacles l s : obstacles (set_obstacles l s) = l.
Proof. reflexivity. Qed.

(** One turn of the loop, when [obstacles[i]] is [o]. *)
Lemma obstacle_body_middle delta l1 o l2 s :
  obstacles s = l1 ++ o :: l2 ->
  obstacle_body rand delta (length l1) s
  = set_obstacles
      (l1 ++ (if offscreen (advance (speed s) delta o) then []
              else [advance (speed s) delta o]) ++ l2)
      (effects rand delta o s).
Proof.
  intros Hl. unfold obstacle_body.
  rewrite Hl, list_lookup_middle by reflexivity.
  fold (advance (speed s) delta o). fold (offscreen (advance (speed s) delta o)).
  rewrite insert_middle.
  set (o' := advance (speed s) delta o).
  set (L := l1 ++ o' :: l2).
  assert (Hs1 : (if scores (move (speed s * delta) delta o)
                 then createScoreParticles rand
                        (set_score (score (set_obstacles L s) + 100)
                           (set_obstacles L s))
                 else set_obstacles L s)
                = set_obstacles L
                    (if scores (move (speed s * delta) delta o)
                     then createScoreParticles rand
                            (set_score (score s + 100) s)
                     else s)).
  { destruct (scores _); [|reflexivity].
    rewrite <- createScoreParticles_set_obstacles. reflexivity. }
  rewrite Hs1. clear Hs1.
  rewrite checkCollision_set_obstacles.
  unfold effects. fold o'.
  assert (HL : delete (length l1) L = l1 ++ [] ++ l2)
    by apply delete_middle.
  assert (HL' : L = l1 ++ [o'] ++ l2) by reflexivity.
  destruct (checkCollision _ o'); rewrite ?endGame_set_obstacles;
    destruct (offscreen o');
    rewrite ?obstacles_set_obstacles, ?set_obstacles_twice, ?HL;
    rewrite <- ?HL'; reflexivity.
Qed.

Lemma same_player_refl s : same_player s s.
Proof. unfold same_player. tauto. Qed.

Lemma same_player_trans s1 s2 s3 :
  same_player s1 s2 -> same_player s2 s3 -> same_player s1 s3.
Proof. unfold same_player. intuition congruence. Qed.

Lemma burst_same_player n s s' : burst n s s' -> same_player s s'.
Proof. intros (ps & k & _ & ->). unfold same_player. cbn. tauto. Qed.

Lemma endGame_same_player s : same_player s (endGame rand s).
Proof.
  unfold endGame.
  destruct (createDeathParticles_burst rand (set_gameOver true s))
    as (ps & k & _ & ->).
  cbn [set_visible]. destruct (_ <? _)%Z; unfold same_player; cbn; tauto.
Qed.

Lemma effects_same_player delta o s : same_player s (effects rand delta o s).
Proof.
  unfold effects.
  set (s1 := if scores _ then _ else s).
  assert (H1 : same_player s s1).
  { subst s1. destruct (scores _); [|apply same_player_refl].
    eapply same_player_trans;
      [|eapply burst_same_player, createScoreParticles_burst].
    unfold same_player. cbn. tauto. }
  destruct (checkCollision _ _); [|done].
  eapply same_player_trans; [exact H1|apply endGame_same_player].
Qed.

Lemma foldr_effects_same_player delta l s :
  same_player s (foldr (effects rand delta) s l).
Proof.
  induction l as [|o l IH]; [apply same_player_refl|].
  eapply same_player_trans; [exact IH|apply effects_same_player].
Qed.

Lemma foldr_effects_set_obstacles delta l L s :
  foldr (effects rand delta) (set_obstacles L s) l
  = set_obstacles L (foldr (effects rand delta) s l).
Proof.
  induction l as [|o l IH]; [done|].
  cbn [foldr]. by rewrite IH, effects_set_obstacles.
Qed.

Lemma survivors_snoc spd delta l o :
  survivors spd delta (l ++ [o])
  = survivors spd delta l
    ++ (if offscreen (advance spd delta o) then []
        else [advance spd delta o]).
Proof.
  unfold survivors. rewrite map_app, List.filter_app. cbn.
  by destruct (offscreen _).
Qed.

(** The obstacle loop, run from index [length l1 - 1] down to [0] on the
    list [l1 ++ l2]: the obstacles of [l1] are advanced and the off-screen ones
    dropped, [l2] is left alone, and the effects rand on the rest of the state
    happen from the last obstacle of [l1] to its first. *)
Lemma obstacle_loop_spec delta l1 : forall l2 s,
  obstacles s = l1 ++ l2 ->
  obstacle_loop rand delta (length l1) s
  = set_obstacles (survivors (speed s) delta l1 ++ l2)
      (foldr (effects rand delta) s l1).
Proof.
  induction l1 as [|o l IH] using rev_ind; intros l2 s Hl.
  - change (obstacles s = l2) in Hl. cbn. rewrite <- Hl. by destruct s.
  - rewrite length_app, Nat.add_1_r. cbn [obstacle_loop].
    rewrite <- app_assoc in Hl.
    rewrite (obstacle_body_middle delta l o l2 s Hl).
    rewrite IH
      with (l2 := (if offscreen (advance (speed s) delta o) then []
                   else [advance (speed s) delta o]) ++ l2)
      by reflexivity.
    change (speed (set_obstacles ?L ?x)) with (speed x).
    destruct (effects_same_player delta o s)
      as (_ & _ & _ & _ & _ & -> & _).
    rewrite foldr_effects_set_obstacles, set_obstacles_twice.
    rewrite foldr_app, survivors_snoc, <- app_assoc. reflexivity.
Qed.

Lemma aged_snoc l p :
  aged (l ++ [p]) = aged l ++ (if dead (age p) then [] else [age p]).
Proof.
  unfold aged. rewrite map_app, List.filter_app. cbn.
  by destruct (dead _).
Qed.

Lemma set_particles_twice l l' s :
  set_particles l (set_particles l' s) = set_particles l s.
Proof. reflexivity. Qed.

Lemma particle_body_middle l1 p l2 s :
  particles s = l1 ++ p :: l2 ->
  particle_body (length l1) s
  = set_particles (l1 ++ (if dead (age p) then [] else [age p]) ++ l2) s.
Proof.
  intros Hl. unfold particle_body.
  rewrite Hl, list_lookup_middle by reflexivity.
  rewrite insert_middle.
  destruct (dead (age p)); [|reflexivity].
  rewrite set_particles_twice.
  change (particles (set_particles ?l ?x)) with l.
  by rewrite delete_middle.
Qed.

(** The particle loop on [l1 ++ l2], run from index [length l1 - 1] down to
    [0]: every particle of [l1] is aged once and the dead ones are dropped. *)
Lemma particle_loop_spec l1 : forall l2 s,
  particles s = l1 ++ l2 ->
  particle_loop (length l1) s = set_particles (aged l1 ++ l2) s.
Proof.
  induction l1 as [|p l IH] using rev_ind; intros l2 s Hl.
  - change (particles s = l2) in Hl. cbn. rewrite <- Hl. by destruct s.
  - rewrite length_app, Nat.add_1_r. cbn [particle_loop].
    rewrite <- app_assoc in Hl.
    rewrite (particle_body_middle l p l2 s Hl).
    rewrite IH with (l2 := (if dead (age p) then [] else [age p]) ++ l2)
      by reflexivity.
    rewrite set_particles_twice, aged_snoc, <- app_assoc. reflexivity.
Qed.

Lemma particle_loop_all s :
  particle_loop (length (particles s)) s = set_particles (aged (particles s)) s.
Proof.
  rewrite (particle_loop_spec (particles s) [] s) by (by rewrite app_nil_r).
  by rewrite app_nil_r.
Qed.

Lemma obstacle_loop_all delta s :
  obstacle_loop rand delta (length (obstacles s)) s
  = set_obstacles (survivors (speed s) delta (obstacles s))
      (foldr (effects rand delta) s (obstacles s)).
Proof.
  rewrite (obstacle_loop_spec delta (obstacles s) [] s)
    by (by rewrite app_nil_r).
  by rewrite app_nil_r.
Qed.

Lemma checkCollision_same s s' o :
  same_player s s' -> checkCollision s' o = checkCollision s o.
Proof.
  intros (Hy & _ & _ & Hd & _). unfold checkCollision, dinoBox.
  by rewrite Hy, Hd.
Qed.

(** What [endGame] writes. *)
Lemma endGame_fields s :
  score (endGame rand s) = score s
  /\ gameOver (endGame rand s) = true
  /\ highScore (endGame rand s)
     = (if (highScore s <? score s)%Z then score s else highScore s)
  /\ storage (endGame rand s)
     = (if (highScore s <? score s)%Z then Some (score s) else storage s).
Proof.
  unfold endGame.
  destruct (createDeathParticles_burst rand (set_gameOver true s))
    as (ps & k & _ & ->).
  cbn [set_visible]. game_simpl.
  destruct (_ <? _)%Z; cbn; tauto.
Qed.

(** What one turn of the obstacle loop writes besides the obstacle. *)
Lemma effects_fields delta o s :
  let hit := scores (move (speed s * delta) delta o) in
  let col := checkCollision s (advance (speed s) delta o) in
  let sc := (score s + (if hit then 100 else 0))%Z in
  score (effects rand delta o s) = sc
  /\ gameOver (effects rand delta o s) = gameOver s || col
  /\ highScore (effects rand delta o s)
     = (if col then if (highScore s <? sc)%Z then sc else highScore s
        else highScore s)
  /\ storage (effects rand delta o s)
     = (if col then if (highScore s <? sc)%Z then Some sc else storage s
        else storage s).
Proof.
  intros hit col sc. unfold effects. fold hit.
  set (s1 := if hit then _ else s).
  assert (H1 : same_player s s1 /\ score s1 = sc /\ gameOver s1 = gameOver s
               /\ highScore s1 = highScore s /\ storage s1 = storage s).
  { subst s1 sc. destruct hit.
    - destruct (createScoreParticles_burst rand (set_score (score s + 100) s))
        as (ps & k & _ & ->).
      unfold same_player. cbn. tauto.
    - rewrite Z.add_0_r. split; [apply same_player_refl|tauto]. }
  destruct H1 as (Hsame & Hsc & Hgo & Hhs & Hst).
  rewrite (checkCollision_same s s1) by exact Hsame. fold col.
  destruct col.
  - destruct (endGame_fields s1) as (-> & -> & -> & ->).
    rewrite Hsc, Hhs, Hst, orb_true_r. tauto.
  - rewrite orb_false_r. tauto.
Qed.

Lemma foldr_effects_score delta l s :
  score (foldr (effects rand delta) s l)
  = (score s + 100 * Z.of_nat (length (newly_passed (speed s) delta l)))%Z.
Proof.
  induction l as [|o l IH]; cbn [foldr newly_passed List.filter length].
  - lia.
  - destruct (effects_fields delta o (foldr (effects rand delta) s l))
      as (-> & _).
    destruct (foldr_effects_same_player delta l s)
      as (_ & _ & _ & _ & _ & -> & _).
    rewrite IH. fold (newly_passed (speed s) delta l).
    destruct (scores _); cbn [length]; lia.
Qed.

Lemma foldr_effects_gameOver delta l s :
  gameOver (foldr (effects rand delta) s l)
  = gameOver s
    || existsb (fun o => checkCollision s (advance (speed s) delta o)) l.
Proof.
  induction l as [|o l IH]; cbn [foldr existsb].
  - by rewrite orb_false_r.
  - destruct (effects_fields delta o (foldr (effects rand delta) s l))
      as (_ & -> & _).
    pose proof (foldr_effects_same_player delta l s) as Hsame.
    rewrite (checkCollision_same _ _ _ Hsame).
    destruct Hsame as (_ & _ & _ & _ & _ & -> & _).
    rewrite IH. by destruct (gameOver s), (checkCollision _ _), (existsb _ _).
Qed.

Lemma animate_gameplay time s :
  animate rand time s
  = camera_update rand
      (particle_loop (length (particles (gameplay rand time s))) (gameplay rand time s)).
Proof. reflexivity. Qed.

Lemma camera_update_shape s :
  exists x y k, camera_update rand s = set_rng k (set_camera x y s).
Proof.
  unfold camera_update. destruct (_ && _).
  - exists ((rand (rng s) - (5 # 10)) * (2 # 10)),
      (2 + (rand (S (rng s)) - (5 # 10)) * (2 # 10)), (S (S (rng s))).
    reflexivity.
  - exists (camera_x s + (0 - camera_x s) * (1 # 10)),
      (camera_y s + (2 - camera_y s) * (1 # 10)), (rng s).
    destruct s. reflexivity.
Qed.

(** A frame, after its gameplay rand part: the particles are aged, the camera
    moves, draws may be made. *)
Lemma animate_shape time s :
  exists x y k,
    animate rand time s
    = set_rng k (set_camera x y
        (set_particles (aged (particles (gameplay rand time s)))
           (gameplay rand time s))).
Proof.
  rewrite animate_gameplay, particle_loop_all.
  apply camera_update_shape.
Qed.

Lemma update_speed_shape s :
  update_speed s
  = set_speed (baseSpeed + inject_Z (score s) * (5 # 100000)) s.
Proof. reflexivity. Qed.

(** The spawner appends at most one obstacle, placed at [x = 20] and not
    passed; it writes the timer and makes draws besides. *)
Lemma createObstacle_shape s :
  exists o k,
    createObstacle rand s = set_rng k (set_obstacles (obstacles s ++ [o]) s)
    /\ o_x o = 20 /\ o_passed o = false.
Proof.
  unfold createObstacle, random.
  destruct (Qltb (rand (rng s)) (6 # 10)); [|destruct (Qltb _ (85 # 100))].
  - unfold createCactus, random. game_simpl.
    destruct (Qltb (3 # 10) _); game_simpl;
      destruct (Qltb (5 # 10) _); game_simpl;
      eexists _, _; (split; [reflexivity|split; reflexivity]).
  - unfold createDoubleCactus, createCactus, random. game_simpl.
    destruct (Qltb (3 # 10) _); game_simpl;
      destruct (Qltb (5 # 10) _); game_simpl;
      destruct (Qltb (3 # 10) _); game_simpl;
      destruct (Qltb (5 # 10) _); game_simpl;
      eexists _, _; (split; [reflexivity|split; reflexivity]).
  - unfold createPterodactyl, random. game_simpl.
    eexists _, _; (split; [reflexivity|split; reflexivity]).
Qed.

Lemma spawn_shape delta s :
  exists extra tm k,
    spawn rand delta s
    = set_rng k (set_obstacleTimer tm (set_obstacles (obstacles s ++ extra) s))
    /\ (length extra <= 1)%nat
    /\ Forall (fun o => o_x o = 20 /\ o_passed o = false) extra.
Proof.
  unfold spawn. game_simpl. destruct (Qltb _ _).
  - destruct (createObstacle_shape (set_obstacleTimer (obstacleTimer s + delta) s))
      as (o & k & -> & Hx & Hp).
    exists [o], 0, k. split; [reflexivity|]. split; [done|].
    by repeat constructor.
  - exists [], (obstacleTimer s + delta), (rng s).
    split; [|split; [cbn; lia|constructor]].
    rewrite app_nil_r. destruct s. reflexivity.
Qed.

(** The jump integrator writes the player's height, velocity and airborne
    flag, and may add a burst. *)
Lemma jump_physics_shape delta s :
  exists y v j ps k,
    jump_physics rand delta s
    = set_rng k (set_particles ps
        (set_jumpVelocity v (set_isJumping j (set_pos_y y s)))).
Proof.
  unfold jump_physics. destruct (isJumping s) eqn:Hj.
  - game_simpl. destruct (Qleb _ _).
    + destruct (createJumpParticles_burst rand
        (set_jumpVelocity 0 (set_isJumping false (set_pos_y baseY
          (set_jumpVelocity (jumpVelocity s - gravity * delta)
            (set_pos_y (pos_y (dino s) + jumpVelocity s * delta) s))))))
        as (ps & k & _ & ->).
      exists baseY, 0, false, (particles s ++ ps), k. reflexivity.
    + exists (pos_y (dino s) + jumpVelocity s * delta),
        (jumpVelocity s - gravity * delta), true, (particles s), (rng s).
      destruct s as [? ? [? ? ?]]. cbn in Hj. subst. reflexivity.
  - exists (pos_y (dino s)), (jumpVelocity s), false, (particles s), (rng s).
    destruct s as [? ? [? ? ?]]. cbn in Hj. subst. reflexivity.
Qed.

(** The playing branch: speed, spawner, obstacle loop (read as a list
    function), jump integrator. *)
Lemma playing_eq delta s :
  playing rand delta s
  = jump_physics rand delta
      (set_obstacles
         (survivors (speed (pre_loop rand delta s)) delta
            (obstacles (pre_loop rand delta s)))
         (foldr (effects rand delta) (pre_loop rand delta s)
            (obstacles (pre_loop rand delta s)))).
Proof. unfold playing. by rewrite obstacle_loop_all. Qed.

Lemma pre_loop_fields delta s :
  score (pre_loop rand delta s) = score s
  /\ gameOver (pre_loop rand delta s) = gameOver s
  /\ highScore (pre_loop rand delta s) = highScore s
  /\ storage (pre_loop rand delta s) = storage s
  /\ dino (pre_loop rand delta s) = dino s
  /\ isJumping (pre_loop rand delta s) = isJumping s
  /\ isDucking (pre_loop rand delta s) = isDucking s
  /\ jumpVelocity (pre_loop rand delta s) = jumpVelocity s
  /\ particles (pre_loop rand delta s) = particles s
  /\ gameStarted (pre_loop rand delta s) = gameStarted s
  /\ speed (pre_loop rand delta s)
     = baseSpeed + inject_Z (score s) * (5 # 100000).
Proof.
  unfold pre_loop.
  destruct (spawn_shape delta (update_speed s))
    as (extra & tm & k & -> & _).
  cbn. tauto.
Qed.

(** *** Scoring *)

Lemma advance_passed spd delta o :
  o_passed (advance spd delta o)
  = o_passed o || scores (move (spd * delta) delta o).
Proof.
  unfold advance. destruct (scores _) eqn:E; cbn.
  - by rewrite orb_true_r.
  - by rewrite orb_false_r.
Qed.

Lemma passed_scores_not d delta o :
  o_passed o && scores (move d delta o) = false.
Proof. unfold scores. cbn. by destruct (o_passed o). Qed.

Lemma offscreen_scores spd delta o :
  o_passed o = false ->
  offscreen (advance spd delta o) = true ->
  scores (move (spd * delta) delta o) = true.
Proof.
  intros Hp Hoff. destruct (scores _) eqn:E; [done|].
  unfold advance in Hoff. rewrite E in Hoff.
  unfold scores in E. cbn in E. rewrite Hp in E. cbn in E.
  unfold offscreen in Hoff. cbn in Hoff.
  apply Qltb_lt in Hoff. apply Qltb_ge in E.
  unfold dino_x in E. lra.
Qed.

(** Every obstacle not yet passed either scores now or stays, not passed. *)
Lemma newly_passed_unpassed spd delta l :
  (length (newly_passed spd delta l) + unpassed (survivors spd delta l)
   = unpassed l)%nat.
Proof.
  unfold newly_passed, unpassed, survivors.
  induction l as [|o l IH]; [done|].
  cbn [List.filter map].
  pose proof (advance_passed spd delta o) as Hadv.
  pose proof (passed_scores_not (spd * delta) delta o) as Hnot.
  pose proof (offscreen_scores spd delta o) as Hoff.
  destruct (o_passed o) eqn:Hp, (scores (move (spd * delta) delta o)) eqn:Hs;
    try discriminate; cbn [negb orb] in *;
    destruct (offscreen (advance spd delta o)) eqn:Ho;
    cbn [negb List.filter length]; rewrite ?Hadv; cbn [negb length];
    try lia.
Qed.

Lemma gameplay_playing time s :
  gameStarted s && negb (gameOver s) = true ->
  gameplay rand time s
  = playing rand (frame_delta time s) (set_lastTime time s).
Proof. intros H. unfold gameplay. game_simpl. by rewrite H. Qed.

Lemma gameplay_idle time s :
  gameStarted s && negb (gameOver s) = false ->
  gameplay rand time s = set_lastTime time s.
Proof. intros H. unfold gameplay. game_simpl. by rewrite H. Qed.

(** The run-level fields after the playing branch are those the obstacle
    loop left. *)
Lemma playing_fields delta s :
  let s2 := pre_loop rand delta s in
  let F := foldr (effects rand delta) s2 (obstacles s2) in
  score (playing rand delta s) = score F
  /\ gameOver (playing rand delta s) = gameOver F
  /\ highScore (playing rand delta s) = highScore F
  /\ storage (playing rand delta s) = storage F
  /\ gameStarted (playing rand delta s) = gameStarted F
  /\ obstacles (playing rand delta s)
     = survivors (speed s2) delta (obstacles s2).
Proof.
  intros s2 F. rewrite playing_eq. fold s2. fold F.
  destruct (jump_physics_shape delta
              (set_obstacles (survivors (speed s2) delta (obstacles s2)) F))
    as (y & v & j & ps & k & ->).
  cbn. tauto.
Qed.

Lemma playing_score delta s :
  score (playing rand delta s)
  = (score s
     + 100 * Z.of_nat (length (newly_passed
                 (baseSpeed + inject_Z (score s) * (5 # 100000)) delta
                 (obstacles (pre_loop rand delta s)))))%Z.
Proof.
  destruct (playing_fields delta s) as (-> & _).
  rewrite foldr_effects_score.
  destruct (pre_loop_fields delta s)
    as (-> & _ & _ & _ & _ & _ & _ & _ & _ & _ & ->).
  reflexivity.
Qed.

Lemma playing_obstacles delta s :
  obstacles (playing rand delta s)
  = survivors (baseSpeed + inject_Z (score s) * (5 # 100000)) delta
      (obstacles (pre_loop rand delta s)).
Proof.
  destruct (playing_fields delta s) as (_ & _ & _ & _ & _ & ->).
  destruct (pre_loop_fields delta s)
    as (_ & _ & _ & _ & _ & _ & _ & _ & _ & _ & ->).
  reflexivity.
Qed.

Lemma animate_score time s :
  score (animate rand time s) = score (gameplay rand time s).
Proof. destruct (animate_shape time s) as (x & y & k & ->). reflexivity. Qed.

Lemma animate_obstacles time s :
  obstacles (animate rand time s) = obstacles (gameplay rand time s).
Proof. destruct (animate_shape time s) as (x & y & k & ->). reflexivity. Qed.

(** Over a frame the score never goes down.  It goes up by 100 for each
    obstacle the loop visits that has not been passed and whose moved position
    is left of the player's by more than 1, and by nothing else.  Such an
    obstacle is marked passed, a passed obstacle stays passed and does not
    score again; so the score plus 100 for every obstacle not yet passed is
    the same before and after the loop. *)
Lemma score_once_per_frame (time : Q) (s : Game) :
  let delta := frame_delta time s in
  let spd := baseSpeed + inject_Z (score s) * (5 # 100000) in
  let l := visited rand time s in
  let s' := animate rand time s in
  (score s <= score s')%Z
  /\ score s' = (score s + 100 * Z.of_nat (length (newly_passed spd delta l)))%Z
  /\ (if gameStarted s && negb (gameOver s) then
        obstacles s' = survivors spd delta l
        /\ (score s' + 100 * Z.of_nat (unpassed (obstacles s'))
            = score s + 100 * Z.of_nat (unpassed l))%Z
      else obstacles s' = obstacles s)
  /\ (forall o, o_passed (advance spd delta o)
                = o_passed o || scores (move (spd * delta) delta o))
  /\ (forall o, o_passed o && scores (move (spd * delta) delta o) = false).
Proof.
  intros delta spd l s'.
  assert (Hsc : score s'
    = (score s + 100 * Z.of_nat (length (newly_passed spd delta l)))%Z).
  { subst s' l. unfold visited. rewrite animate_score.
    destruct (gameStarted s && negb (gameOver s)) eqn:Hp.
    - rewrite gameplay_playing by exact Hp.
      exact (playing_score delta (set_lastTime time s)).
    - rewrite gameplay_idle by exact Hp. cbn. lia. }
  split; [lia|]. split; [exact Hsc|]. split.
  - destruct (gameStarted s && negb (gameOver s)) eqn:Hp.
    + assert (Hobs : obstacles s' = survivors spd delta l).
      { subst s' l. unfold visited. rewrite Hp, animate_obstacles.
        rewrite gameplay_playing by exact Hp.
        exact (playing_obstacles delta (set_lastTime time s)). }
      split; [exact Hobs|].
      rewrite Hsc, Hobs.
      pose proof (newly_passed_unpassed spd delta l). lia.
    + subst s'. rewrite animate_obstacles, gameplay_idle by exact Hp.
      reflexivity.
  - split; intros o; [apply advance_passed|apply passed_scores_not].
Qed.

(** *** The spawn interval *)

(** C7.  The spawn interval does not grow with the score and is never below
    its floor, 50. *)
Theorem spawnInterval_antitone (s1 s2 : Z) (H : (s1 <= s2)%Z) :
  spawnInterval s2 <= spawnInterval s1
  /\ 50 <= spawnInterval s1 /\ 50 <= spawnInterval s2.
Proof.
  unfold spawnInterval. repeat split; try apply Q.le_max_l.
  apply Q.max_le_compat_l.
  assert (Hq : inject_Z s1 <= inject_Z s2) by (by rewrite <- Zle_Qle).
  lra.
Qed.

(** The spawner of a frame compares the timer with this interval, taken at
    the current score. *)
Lemma spawn_uses_spawnInterval delta s :
  Qltb (spawnInterval (score s)) (obstacleTimer s + delta) = false ->
  spawn rand delta s = set_obstacleTimer (obstacleTimer s + delta) s.
Proof. intros H. unfold spawn. game_simpl. by rewrite H. Qed.

(** *** The player's box *)

(** C8, amended.  The box handed to the collision test has the same width,
    1.2, ducking or standing; only its height depends on the duck flag: 1 when
    ducking, 2 when standing. *)
Theorem hitbox_height_only (s : Game) :
  b_width (dinoBox (set_isDucking true s)) = (12 # 10)
  /\ b_width (dinoBox (set_isDucking false s)) = (12 # 10)
  /\ b_height (dinoBox (set_isDucking true s)) = 1
  /\ b_height (dinoBox (set_isDucking false s)) = 2
  /\ b_x (dinoBox (set_isDucking true s))
     = b_x (dinoBox (set_isDucking false s))
  /\ b_y (dinoBox (set_isDucking true s))
     = b_y (dinoBox (set_isDucking false s))
  /\ forall o, checkCollision s o = overlap (dinoBox s) (obsBox o).
Proof. repeat split. Qed.

(** *** Ducking while airborne *)

(** C9.  While the game is played and the player is airborne, the keyboard
    duck is taken: the duck flag is set and the player is put 0.5 below the
    base height, whatever height the jump had reached, the jump itself going
    on; the pointer press changes nothing. *)
Theorem airborne_duck_keyboard_only (s : Game)
  (Hstarted : gameStarted s = true) (Hover : gameOver s = false)
  (Hjump : isJumping s = true) :
  let s' := onKeyDown rand ArrowDown s in
  isDucking s' = true
  /\ pos_y (dino s') = baseY - (5 # 10)
  /\ scale_y (dino s') = (5 # 10)
  /\ isJumping s' = true
  /\ jumpVelocity s' = jumpVelocity s
  /\ onPointerDown s = s.
Proof.
  unfold onKeyDown, onPointerDown. cbn [is_jump_key is_down_key andb].
  rewrite Hstarted, Hover, Hjump. cbn. rewrite Hjump. tauto.
Qed.

(** *** The best score *)

Lemma endGame_best s :
  best_synced s ->
  storage (endGame rand s)
  = (if (stored_best s <? score s)%Z then Some (score s) else storage s)
  /\ stored_best (endGame rand s) = Z.max (stored_best s) (score s)
  /\ best_synced (endGame rand s).
Proof.
  unfold best_synced. intros Hs.
  destruct (endGame_fields s) as (_ & _ & Hh & Hst).
  unfold stored_best at 2 4. rewrite Hh, Hst, Hs.
  destruct (Z.ltb_spec (stored_best s) (score s)).
  - repeat split. lia.
  - repeat split. fold (stored_best s). lia.
Qed.

Lemma effects_best delta o s :
  best_synced s ->
  best_synced (effects rand delta o s)
  /\ (stored_best s <= stored_best (effects rand delta o s))%Z.
Proof.
  unfold best_synced. intros Hs.
  destruct (effects_fields delta o s) as (_ & _ & Hh & Hst).
  cbv zeta in Hh, Hst. unfold stored_best at 1 3. rewrite Hh, Hst.
  destruct (checkCollision _ _).
  - destruct (Z.ltb_spec (highScore s) (score s
      + (if scores (move (speed s * delta) delta o) then 100 else 0))).
    + split; [done|]. lia.
    + split; [exact Hs|]. fold (stored_best s). lia.
  - split; [exact Hs|]. fold (stored_best s). lia.
Qed.

Lemma foldr_effects_best delta l s :
  best_synced s ->
  best_synced (foldr (effects rand delta) s l)
  /\ (stored_best s <= stored_best (foldr (effects rand delta) s l))%Z.
Proof.
  intros Hs. induction l as [|o l [IH1 IH2]]; cbn [foldr].
  - split; [exact Hs|lia].
  - destruct (effects_best delta o _ IH1). split; [done|lia].
Qed.

Lemma playing_best delta s :
  best_synced s ->
  best_synced (playing rand delta s)
  /\ (stored_best s <= stored_best (playing rand delta s))%Z.
Proof.
  intros Hs. unfold best_synced, stored_best.
  destruct (playing_fields delta s) as (_ & _ & -> & -> & _).
  destruct (pre_loop_fields delta s) as (_ & _ & Hh & Hst & _).
  assert (H2 : best_synced (pre_loop rand delta s)).
  { unfold best_synced, stored_best. by rewrite Hh, Hst. }
  destruct (foldr_effects_best delta (obstacles (pre_loop rand delta s)) _ H2)
    as (H3 & H4).
  split; [exact H3|].
  unfold stored_best in H4 at 1. rewrite Hst in H4. exact H4.
Qed.

Lemma animate_best time s :
  best_synced s ->
  best_synced (animate rand time s)
  /\ (stored_best s <= stored_best (animate rand time s))%Z.
Proof.
  intros Hs. destruct (animate_shape time s) as (x & y & k & ->).
  change (best_synced (gameplay rand time s)
          /\ (stored_best s <= stored_best (gameplay rand time s))%Z).
  unfold gameplay. game_simpl. destruct (_ && _).
  - apply (playing_best _ (set_lastTime time s)). exact Hs.
  - split; [exact Hs|]. change (stored_best s <= stored_best s)%Z. lia.
Qed.

Lemma jump_shape s :
  exists v j ps k,
    jump rand s
    = set_rng k (set_particles ps (set_jumpVelocity v (set_isJumping j s))).
Proof.
  unfold jump. destruct (_ && _).
  - destruct (createJumpParticles_burst rand
                (set_jumpVelocity (35 # 100) (set_isJumping true s)))
      as (ps & k & _ & ->).
    exists (35 # 100), true, (particles s ++ ps), k. reflexivity.
  - exists (jumpVelocity s), (isJumping s), (particles s), (rng s).
    by destruct s.
Qed.

(** No input handler touches the best score. *)
Lemma handler_best e s :
  (forall time, e <> Frame time) ->
  highScore (step rand e s) = highScore s
  /\ storage (step rand e s) = storage s.
Proof.
  intros He. destruct e as [c|c| | |time]; cbn [step].
  - unfold onKeyDown.
    destruct (is_jump_key c);
      [destruct (gameStarted s); cbn [negb];
       [destruct (gameOver s)|]|];
      try destruct (jump_shape s) as (v & j & ps & k & ->);
      destruct (is_down_key c && _ && _); cbn; tauto.
  - unfold onKeyUp. destruct (is_down_key c); [|tauto].
    destruct (negb _); cbn; tauto.
  - unfold onPointerDown.
    destruct (gameStarted s); cbn [negb];
      [destruct (gameOver s); [|destruct (negb _)]|]; cbn; tauto.
  - unfold onPointerUp. destruct (_ || _); [tauto|].
    destruct (isDucking s).
    + destruct (jump_shape (set_pos_y baseY (set_scale_y 1
                  (set_isDucking false s)))) as (v & j & ps & k & ->).
      cbn; tauto.
    + destruct (jump_shape s) as (v & j & ps & k & ->). cbn; tauto.
  - by destruct (He time).
Qed.

Lemma step_best e s :
  best_synced s ->
  best_synced (step rand e s)
  /\ (stored_best s <= stored_best (step rand e s))%Z.
Proof.
  intros Hs.
  assert (He : (exists time, e = Frame time) \/ forall time, e <> Frame time).
  { destruct e; [right; discriminate..|left; eauto]. }
  destruct He as [[time ->]|He].
  - apply animate_best, Hs.
  - destruct (handler_best e s He) as (Hh & Hst).
    unfold best_synced, stored_best in *. rewrite Hh, Hst.
    split; [exact Hs|lia].
Qed.

Lemma reachable_best s : reachable rand s -> best_synced s.
Proof.
  induction 1 as [stored|e s _ IH].
  - by destruct stored.
  - by apply step_best.
Qed.

(** C6.  When the run ends with the best score in memory equal to the stored
    one, as it is in every reachable state, [endGame] overwrites the stored
    best with the score if and only if the score is strictly greater, and
    leaves it otherwise; the stored best never goes down, at the end of a run
    or at any other event. *)
Theorem best_score_on_game_over (s : Game) (Hs : best_synced s) :
  storage (endGame rand s)
  = (if (stored_best s <? score s)%Z then Some (score s) else storage s)
  /\ stored_best (endGame rand s)
     = (if (stored_best s <? score s)%Z then score s else stored_best s)
  /\ highScore (endGame rand s) = stored_best (endGame rand s)
  /\ gameOver (endGame rand s) = true
  /\ (stored_best s <= stored_best (endGame rand s))%Z
  /\ (forall e, best_synced (step rand e s)
                /\ (stored_best s <= stored_best (step rand e s))%Z)
  /\ (forall s0, reachable rand s0 -> best_synced s0).
Proof.
  destruct (endGame_best s Hs) as (Hst & Hmax & Hsync).
  destruct (endGame_fields s) as (_ & Hgo & _).
  repeat split; try done.
  - rewrite Hmax. destruct (Z.ltb_spec (stored_best s) (score s)); lia.
  - rewrite Hmax. lia.
  - by apply step_best.
  - by apply step_best.
  - apply reachable_best.
Qed.

(** *** The player *)

Lemma jump_cases s :
  (isJumping s = false /\ gameOver s = false /\
   exists ps k,
     jump rand s
     = set_rng k (set_particles ps
         (set_jumpVelocity (35 # 100) (set_isJumping true s))))
  \/ ((isJumping s = true \/ gameOver s = true) /\ jump rand s = s).
Proof.
  unfold jump. destruct (isJumping s) eqn:Hj; cbn [negb andb].
  - right. tauto.
  - destruct (gameOver s) eqn:Hg; cbn [negb].
    + right. tauto.
    + left. split; [done|split; [done|]].
      destruct (createJumpParticles_burst rand
                  (set_jumpVelocity (35 # 100) (set_isJumping true s)))
        as (ps & k & _ & ->).
      by exists (particles s ++ ps), k.
Qed.

(** What the jump integrator computes. *)
Lemma jump_physics_fields delta s :
  let y := pos_y (dino s) + jumpVelocity s * delta in
  let s' := jump_physics rand delta s in
  pos_y (dino s')
  = (if isJumping s then if Qleb y baseY then baseY else y
     else pos_y (dino s))
  /\ isJumping s' = (if isJumping s then negb (Qleb y baseY) else false)
  /\ jumpVelocity s'
     = (if isJumping s then
          if Qleb y baseY then 0 else jumpVelocity s - gravity * delta
        else jumpVelocity s)
  /\ isDucking s' = isDucking s
  /\ scale_y (dino s') = scale_y (dino s)
  /\ gameOver s' = gameOver s /\ gameStarted s' = gameStarted s.
Proof.
  intros y s'. subst s'. unfold jump_physics.
  destruct (isJumping s) eqn:Hj; [|rewrite Hj; tauto].
  game_simpl. fold y. destruct (Qleb y baseY).
  - destruct (createJumpParticles_burst rand
      (set_jumpVelocity 0 (set_isJumping false (set_pos_y baseY
        (set_jumpVelocity (jumpVelocity s - gravity * delta)
          (set_pos_y y s)))))) as (ps & k & _ & ->).
    cbn. tauto.
  - cbn. tauto.
Qed.

Lemma same_dino_trans s1 s2 s3 :
  same_dino s1 s2 -> same_dino s2 s3 -> same_dino s1 s3.
Proof. unfold same_dino. intuition congruence. Qed.

Lemma same_player_dino s s' : same_player s s' -> same_dino s s'.
Proof. unfold same_player, same_dino. tauto. Qed.

(** The integrator reads and writes the player only: its result on the
    player does not depend on what the obstacle loop did before it. *)
Lemma jump_physics_same delta s s' :
  same_dino s s' ->
  same_dino (jump_physics rand delta s) (jump_physics rand delta s').
Proof.
  intros (Hy & Hsc & Hj & Hd & Hv). unfold same_dino.
  destruct (jump_physics_fields delta s) as (-> & -> & -> & -> & -> & _).
  destruct (jump_physics_fields delta s') as (-> & -> & -> & -> & -> & _).
  rewrite Hy, Hj, Hv, Hd, Hsc. tauto.
Qed.

Lemma pre_loop_same_dino delta s : same_dino s (pre_loop rand delta s).
Proof.
  unfold same_dino.
  destruct (pre_loop_fields delta s)
    as (_ & _ & _ & _ & -> & -> & -> & -> & _).
  tauto.
Qed.

(** The player after the playing branch is the player after the integrator
    alone, whatever the obstacle loop found. *)
Lemma playing_player delta s :
  same_dino (jump_physics rand delta s) (playing rand delta s).
Proof.
  rewrite playing_eq. apply jump_physics_same.
  eapply same_dino_trans; [apply pre_loop_same_dino|].
  apply (same_dino_trans _ (foldr (effects rand delta) (pre_loop rand delta s)
                              (obstacles (pre_loop rand delta s)))).
  - apply same_player_dino, foldr_effects_same_player.
  - unfold same_dino. cbn. tauto.
Qed.

Lemma animate_same_dino time s :
  same_dino (gameplay rand time s) (animate rand time s).
Proof.
  destruct (animate_shape time s) as (x & y & k & ->).
  unfold same_dino. cbn. tauto.
Qed.

(** The player after a frame. *)
Lemma animate_player time s :
  same_dino
    (if gameStarted s && negb (gameOver s)
     then jump_physics rand (frame_delta time s) s else s)
    (animate rand time s).
Proof.
  eapply same_dino_trans; [|apply animate_same_dino].
  destruct (gameStarted s && negb (gameOver s)) eqn:Hp.
  - rewrite gameplay_playing by exact Hp.
    eapply same_dino_trans; [|apply playing_player].
    apply jump_physics_same. unfold same_dino. cbn. tauto.
  - rewrite gameplay_idle by exact Hp. unfold same_dino. cbn. tauto.
Qed.

(** What an input handler can do to the player: the jump state is kept, or a
    jump starts, or the restart grounds the player; the height is kept, or
    set to the base height, or to the duck height. *)
Lemma handler_player e s :
  (forall time, e <> Frame time) ->
  let s' := step rand e s in
  ((isJumping s' = isJumping s /\ jumpVelocity s' = jumpVelocity s)
   \/ (isJumping s' = true /\ jumpVelocity s' = (35 # 100))
   \/ (isJumping s' = false /\ jumpVelocity s' = 0))
  /\ (pos_y (dino s') = pos_y (dino s)
      \/ pos_y (dino s') = baseY
      \/ pos_y (dino s') = baseY - (5 # 10)).
Proof.
  intros He s'. subst s'. destruct e as [c|c| | |time]; cbn [step].
  - unfold onKeyDown. destruct (is_jump_key c).
    + destruct (gameStarted s) eqn:Hgs; cbn [negb].
      * destruct (gameOver s) eqn:Hgo.
        -- destruct (is_down_key c && _ && _); cbn; tauto.
        -- destruct (jump_cases s) as [(_ & _ & ps & k & ->)|(_ & ->)];
             destruct (is_down_key c && _ && _); cbn; tauto.
      * destruct (is_down_key c && _ && _); cbn; tauto.
    + destruct (is_down_key c && _ && _); cbn; tauto.
  - unfold onKeyUp. destruct (is_down_key c); [|tauto].
    destruct (negb _); cbn; tauto.
  - unfold onPointerDown.
    destruct (gameStarted s); cbn [negb];
      [destruct (gameOver s); [|destruct (negb _)]|]; cbn; tauto.
  - unfold onPointerUp. destruct (_ || _); [tauto|].
    destruct (isDucking s).
    + destruct (jump_cases (set_pos_y baseY (set_scale_y 1
                  (set_isDucking false s))))
        as [(_ & _ & ps & k & ->)|(_ & ->)]; cbn; tauto.
    + destruct (jump_cases s) as [(_ & _ & ps & k & ->)|(_ & ->)];
        cbn; tauto.
  - by destruct (He time).
Qed.

Lemma event_cases e :
  (exists time, e = Frame time) \/ forall time, e <> Frame time.
Proof. destruct e; [right; discriminate..|left; eauto]. Qed.

Lemma step_grounded_still e s :
  grounded_still s -> grounded_still (step rand e s).
Proof.
  unfold grounded_still. intros Hs.
  destruct (event_cases e) as [[time ->]|He].
  - cbn [step].
    destruct (animate_player time s) as (_ & _ & -> & _ & ->).
    destruct (gameStarted s && negb (gameOver s)); [|exact Hs].
    destruct (jump_physics_fields (frame_delta time s) s)
      as (_ & -> & -> & _).
    destruct (isJumping s); [|auto].
    destruct (Qleb _ _); [done|discriminate].
  - destruct (handler_player e s He) as ([(-> & ->)|[(-> & _)|(_ & ->)]] & _);
      [exact Hs|discriminate|done].
Qed.

(** C10.  In every reachable state with the jumping flag off the jump
    velocity is 0: it is so at the start, and every event (a jump starting,
    a frame and its landing, a restart) keeps it so. *)
Theorem grounded_velocity_zero (s : Game) (Hreach : reachable rand s) :
  (isJumping s = false -> jumpVelocity s = 0)
  /\ (forall stored, grounded_still (initial stored))
  /\ (forall e s0, grounded_still s0 -> grounded_still (step rand e s0)).
Proof.
  split; [|split].
  - induction Hreach as [stored|e s _ IH]; [done|].
    by apply step_grounded_still.
  - done.
  - apply step_grounded_still.
Qed.

(** *** The player's height *)

Lemma step_height_ok e s : height_ok s -> height_ok (step rand e s).
Proof.
  unfold height_ok. intros Hs.
  destruct (event_cases e) as [[time ->]|He].
  - cbn [step].
    destruct (animate_player time s) as (-> & _).
    destruct (gameStarted s && negb (gameOver s)); [|exact Hs].
    destruct (jump_physics_fields (frame_delta time s) s) as (-> & _).
    destruct (isJumping s); [|exact Hs].
    destruct (Qleb _ _) eqn:E; left; [lra|].
    apply Qleb_gt in E. lra.
  - destruct (handler_player e s He) as (_ & [->| [->| ->]]);
      [exact Hs|left; lra|by right].
Qed.

Lemma reachable_height_ok s : reachable rand s -> height_ok s.
Proof.
  induction 1 as [stored|e s _ IH].
  - left. cbn. lra.
  - by apply step_height_ok.
Qed.

(** C1, amended.  In every reachable state the player is not lower than 0.5
    below the base height, and is below the base height only at exactly that
    duck height.  The integrator leaves an airborne player at or above the
    base height, the restart puts the player at the base height, and the
    duck press puts the player at the duck height. *)
Theorem height_floor (s : Game) (Hreach : reachable rand s) :
  baseY - (5 # 10) <= pos_y (dino s)
  /\ (pos_y (dino s) < baseY -> pos_y (dino s) = baseY - (5 # 10))
  /\ (forall delta s0, isJumping s0 = true ->
        baseY <= pos_y (dino (jump_physics rand delta s0)))
  /\ (forall s0, pos_y (dino (restartGame s0)) = baseY)
  /\ (forall s0, pos_y (dino (duck s0)) = baseY - (5 # 10)).
Proof.
  destruct (reachable_height_ok s Hreach) as [H|H].
  - repeat split; try lra.
    + intros delta s0 Hj.
      destruct (jump_physics_fields delta s0) as (-> & _). rewrite Hj.
      destruct (Qleb _ _) eqn:E; [lra|]. apply Qleb_gt in E. lra.
  - rewrite H. repeat split; try lra.
    + intros delta s0 Hj.
      destruct (jump_physics_fields delta s0) as (-> & _). rewrite Hj.
      destruct (Qleb _ _) eqn:E; [lra|]. apply Qleb_gt in E. lra.
Qed.

(** *** Starting *)

Lemma handler_gameStarted e s :
  (forall time, e <> Frame time) ->
  gameStarted s = true -> gameStarted (step rand e s) = true.
Proof.
  intros He Hgs. destruct e as [c|c| | |time]; cbn [step].
  - unfold onKeyDown. rewrite Hgs. cbn [negb].
    destruct (is_jump_key c); [destruct (gameOver s)|];
      try destruct (jump_shape s) as (v & j & ps & k & ->);
      destruct (is_down_key c && _ && _); cbn; done.
  - unfold onKeyUp. destruct (is_down_key c); [|done].
    destruct (negb _); cbn; done.
  - unfold onPointerDown. rewrite Hgs. cbn [negb].
    destruct (gameOver s); [|destruct (negb _)]; cbn; done.
  - unfold onPointerUp. destruct (_ || _); [done|].
    destruct (isDucking s).
    + by destruct (jump_shape (set_pos_y baseY (set_scale_y 1
                  (set_isDucking false s)))) as (v & j & ps & k & ->).
    + by destruct (jump_shape s) as (v & j & ps & k & ->).
  - by destruct (He time).
Qed.

Lemma animate_gameStarted time s :
  gameStarted (animate rand time s) = gameStarted s.
Proof.
  destruct (animate_shape time s) as (x & y & k & ->).
  change (gameStarted (gameplay rand time s) = gameStarted s).
  unfold gameplay. game_simpl. destruct (_ && _); [|done].
  destruct (playing_fields (frame_delta time s) (set_lastTime time s))
    as (_ & _ & _ & _ & -> & _).
  destruct (foldr_effects_same_player (frame_delta time s)
    (obstacles (pre_loop rand (frame_delta time s) (set_lastTime time s)))
    (pre_loop rand (frame_delta time s) (set_lastTime time s)))
    as (_ & _ & _ & _ & _ & _ & -> & _).
  by destruct (pre_loop_fields (frame_delta time s) (set_lastTime time s))
    as (_ & _ & _ & _ & _ & _ & _ & _ & _ & -> & _).
Qed.

Lemma step_idle_clean e s : idle_clean s -> idle_clean (step rand e s).
Proof.
  unfold idle_clean. intros Hs Hidle'.
  destruct (gameStarted s) eqn:Hgs.
  { destruct (event_cases e) as [[time ->]|He].
    - cbn [step] in Hidle'. rewrite animate_gameStarted in Hidle'. congruence.
    - rewrite handler_gameStarted in Hidle' by done. discriminate. }
  destruct (Hs eq_refl) as (Hobs & Hpart & Htm & Hgo).
  destruct e as [c|c| | |time]; cbn [step] in *.
  - unfold onKeyDown in *. rewrite Hgs in *. cbn [negb] in *.
    destruct (is_jump_key c).
    + destruct (is_down_key c && _ && _); cbn in Hidle'; discriminate.
    + rewrite Hgs, andb_false_r. cbn [andb]. tauto.
  - unfold onKeyUp in *. destruct (is_down_key c); [|tauto].
    destruct (negb _); cbn; tauto.
  - unfold onPointerDown in *. rewrite Hgs in *. cbn in Hidle'. discriminate.
  - unfold onPointerUp in *. rewrite Hgs in *. cbn [negb orb] in *. tauto.
  - destruct (animate_shape time s) as (x & y & k & ->).
    rewrite gameplay_idle by (by rewrite Hgs). cbn.
    rewrite Hpart. tauto.
Qed.

Lemma reachable_idle_clean s : reachable rand s -> idle_clean s.
Proof.
  induction 1 as [stored|e s _ IH]; [done|]. by apply step_idle_clean.
Qed.

(** C3.  In a state in which the game has not been started, each start
    input runs [startGame] and nothing else.  That call sets the game
    playing, the score to 0 and the speed to the base speed, whatever they
    were, and writes neither list nor the spawn timer.  In a state the
    program can reach, both lists are empty and the timer is 0 before the
    input, since nothing fills them before the first start, and so they are
    after it. *)
Theorem start_resets (s : Game) (e : Event)
  (Hidle : gameStarted s = false) (He : is_start e = true) :
  let s' := step rand e s in
  s' = set_speed baseSpeed
         (set_score 0 (set_gameOver false (set_gameStarted true s)))
  /\ gameStarted s' = true /\ gameOver s' = false
  /\ score s' = 0%Z /\ speed s' = baseSpeed
  /\ obstacles s' = obstacles s /\ particles s' = particles s
  /\ obstacleTimer s' = obstacleTimer s
  /\ (reachable rand s ->
      obstacles s' = [] /\ particles s' = [] /\ obstacleTimer s' = 0).
Proof.
  assert (Hstep : step rand e s = startGame s).
  { destruct e as [[| | |]|c| | |time]; try discriminate; cbn [step];
      unfold onKeyDown, onPointerDown; cbn [is_jump_key is_down_key andb];
      by rewrite Hidle. }
  cbv zeta. rewrite Hstep. unfold startGame.
  repeat (split; [reflexivity|]).
  intros Hreach.
  destruct (reachable_idle_clean s Hreach Hidle) as (Hobs & Hpart & Htm & _).
  cbn. by rewrite Hobs, Hpart, Htm.
Qed.

(** *** Particles *)

Lemma more_particles_refl s : more_particles s s.
Proof. exists []. by rewrite app_nil_r. Qed.

Lemma more_particles_trans s1 s2 s3 :
  more_particles s1 s2 -> more_particles s2 s3 -> more_particles s1 s3.
Proof.
  intros (n1 & H1) (n2 & H2). exists (n1 ++ n2).
  by rewrite H2, H1, app_assoc.
Qed.

Lemma burst_more_particles n s s' : burst n s s' -> more_particles s s'.
Proof. intros (ps & k & _ & ->). by exists ps. Qed.

Lemma endGame_more_particles s : more_particles s (endGame rand s).
Proof.
  unfold endGame.
  destruct (createDeathParticles_burst rand (set_gameOver true s))
    as (ps & k & _ & ->).
  exists ps. cbn [set_visible]. by destruct (_ <? _)%Z.
Qed.

Lemma effects_more_particles delta o s :
  more_particles s (effects rand delta o s).
Proof.
  unfold effects.
  set (s1 := if scores _ then _ else s).
  assert (H1 : more_particles s s1).
  { subst s1. destruct (scores _); [|apply more_particles_refl].
    destruct (createScoreParticles_burst rand (set_score (score s + 100) s))
      as (ps & k & _ & ->).
    by exists ps. }
  destruct (checkCollision _ _); [|exact H1].
  eapply more_particles_trans; [exact H1|apply endGame_more_particles].
Qed.

Lemma foldr_effects_more_particles delta l s :
  more_particles s (foldr (effects rand delta) s l).
Proof.
  induction l as [|o l IH]; [apply more_particles_refl|].
  eapply more_particles_trans; [exact IH|apply effects_more_particles].
Qed.

Lemma jump_physics_more_particles delta s :
  more_particles s (jump_physics rand delta s).
Proof.
  unfold jump_physics. destruct (isJumping s); [|apply more_particles_refl].
  game_simpl.
  destruct (Qleb _ _); [|exists []; cbn; by rewrite app_nil_r].
  destruct (createJumpParticles_burst rand
    (set_jumpVelocity 0 (set_isJumping false (set_pos_y baseY
      (set_jumpVelocity (jumpVelocity s - gravity * delta)
        (set_pos_y (pos_y (dino s) + jumpVelocity s * delta) s))))))
    as (ps & k & _ & ->).
  by exists ps.
Qed.

Lemma playing_more_particles delta s :
  more_particles s (playing rand delta s).
Proof.
  rewrite playing_eq.
  eapply more_particles_trans; [|apply jump_physics_more_particles].
  set (s2 := pre_loop rand delta s).
  destruct (foldr_effects_more_particles delta (obstacles s2) s2)
    as (new & Hnew).
  exists new. cbn [set_obstacles particles]. rewrite Hnew. subst s2.
  by destruct (pre_loop_fields delta s)
    as (_ & _ & _ & _ & _ & _ & _ & _ & -> & _).
Qed.

Lemma gameplay_more_particles time s : more_particles s (gameplay rand time s).
Proof.
  unfold gameplay. game_simpl. destruct (_ && _).
  - destruct (playing_more_particles (frame_delta time s)
                (set_lastTime time s)) as (new & Hnew).
    exists new. exact Hnew.
  - exists []. cbn. by rewrite app_nil_r.
Qed.

Lemma animate_particles time s :
  particles (animate rand time s) = aged (particles (gameplay rand time s)).
Proof. destruct (animate_shape time s) as (x & y & k & ->). reflexivity. Qed.

Lemma aged_alive l : Forall (fun p => 0 < p_life p) (aged l).
Proof.
  apply List.Forall_forall. intros p Hp.
  apply List.filter_In in Hp as (_ & Hp).
  apply negb_true_iff in Hp. by apply Qleb_gt.
Qed.

(** C4, amended.  A frame ages every particle once, whatever its delta: the
    position moves by the velocity, the vertical velocity drops by 0.008 and
    the life by 0.02.  This is done to the particles the frame started with
    and to those emitted during it, and those whose life is then 0 or less
    are removed in the same frame, the others kept in order. *)
Theorem particles_age_per_frame (time : Q) (s : Game) :
  (exists new,
     particles (animate rand time s)
     = List.filter (fun p => negb (Qleb (p_life p) 0))
         (map age (particles s ++ new)))
  /\ Forall (fun p => 0 < p_life p) (particles (animate rand time s))
  /\ (forall p,
        p_pos (age p)
        = mkVec3 (vx (p_pos p) + vx (p_velocity p))
                 (vy (p_pos p) + vy (p_velocity p))
                 (vz (p_pos p) + vz (p_velocity p))
        /\ p_velocity (age p)
           = mkVec3 (vx (p_velocity p)) (vy (p_velocity p) - (8 # 1000))
                    (vz (p_velocity p))
        /\ p_life (age p) = p_life p - (2 # 100))
  /\ (gameStarted s && negb (gameOver s) = false ->
      particles (animate rand time s) = aged (particles s)).
Proof.
  rewrite animate_particles. repeat split.
  - destruct (gameplay_more_particles time s) as (new & ->). by exists new.
  - apply aged_alive.
  - intros Hp. by rewrite gameplay_idle.
Qed.

(** *** The order of a frame *)

Lemma dinoBox_same s s' : same_dino s s' -> dinoBox s' = dinoBox s.
Proof. intros (Hy & _ & _ & Hd & _). unfold dinoBox. by rewrite Hy, Hd. Qed.

Lemma effects_highScore_mono delta o s :
  (highScore s <= highScore (effects rand delta o s))%Z.
Proof.
  destruct (effects_fields delta o s) as (_ & _ & -> & _).
  cbv zeta. destruct (checkCollision _ _); [|lia].
  destruct (Z.ltb_spec (highScore s) (score s
    + (if scores (move (speed s * delta) delta o) then 100 else 0))); lia.
Qed.

(** An obstacle that scores and is hit in the same frame has scored by the
    time the run ends: the best score then recorded counts its 100. *)
Lemma foldr_effects_scored_then_hit delta l s o :
  In o l ->
  scores (move (speed s * delta) delta o) = true ->
  checkCollision s (advance (speed s) delta o) = true ->
  (score s + 100 <= highScore (foldr (effects rand delta) s l))%Z.
Proof.
  intros Hin Hsc Hcol. induction l as [|o' l IH]; [done|].
  cbn [foldr]. destruct Hin as [->|Hin].
  - set (F := foldr (effects rand delta) s l).
    pose proof (foldr_effects_same_player delta l s) as Hsame. fold F in Hsame.
    pose proof (foldr_effects_score delta l s) as HscF. fold F in HscF.
    destruct (effects_fields delta o F) as (_ & _ & -> & _). cbv zeta.
    rewrite (checkCollision_same s F) by exact Hsame.
    destruct Hsame as (_ & _ & _ & _ & _ & -> & _).
    rewrite Hsc, Hcol.
    destruct (Z.ltb_spec (highScore F) (score F + 100)); lia.
  - specialize (IH Hin).
    pose proof (effects_highScore_mono delta o'
                  (foldr (effects rand delta) s l)). lia.
Qed.

(** The best score after the loop lies between the best score before it and
    the larger of that and the score after it. *)
Lemma foldr_effects_highScore_bounds delta l s :
  (highScore s <= highScore (foldr (effects rand delta) s l))%Z
  /\ (highScore (foldr (effects rand delta) s l)
      <= Z.max (highScore s)
           (score s
            + 100 * Z.of_nat (length (newly_passed (speed s) delta l))))%Z.
Proof.
  unfold newly_passed.
  induction l as [|o l (IH1 & IH2)]; cbn [foldr List.filter length].
  - lia.
  - set (F := foldr (effects rand delta) s l) in *.
    pose proof (foldr_effects_score delta l s) as HscF.
    unfold newly_passed in HscF. fold F in HscF.
    destruct (foldr_effects_same_player delta l s)
      as (_ & _ & _ & _ & _ & Hspd & _). fold F in Hspd.
    destruct (effects_fields delta o F) as (_ & _ & -> & _). cbv zeta.
    rewrite Hspd, HscF.
    destruct (scores _); cbn [length]; destruct (checkCollision _ _);
      try match goal with
          | |- context [(?a <? ?b)%Z] => destruct (Z.ltb_spec a b)
          end; lia.
Qed.

(** Obstacles that do not meet the player leave the best score alone. *)
Lemma foldr_effects_no_hit delta l s :
  Forall (fun o => checkCollision s (advance (speed s) delta o) = false) l ->
  highScore (foldr (effects rand delta) s l) = highScore s.
Proof.
  induction l as [|o l IH]; intros Hl; [done|].
  apply Forall_cons in Hl as (Ho & Hl). cbn [foldr].
  set (F := foldr (effects rand delta) s l) in *.
  pose proof (foldr_effects_same_player delta l s) as Hsame. fold F in Hsame.
  destruct (effects_fields delta o F) as (_ & _ & -> & _). cbv zeta.
  rewrite (checkCollision_same s F) by exact Hsame.
  destruct Hsame as (_ & _ & _ & _ & _ & -> & _).
  rewrite Ho. by apply IH.
Qed.

(** The loop runs from the end of the list: when [o] is the first obstacle of
    the list that meets the player, it is the last one visited that ends the
    run, and the score the run then ends with counts the obstacles from [o]
    to the end of the list, which were visited before, and none of those in
    front of [o], which are visited after. *)
Lemma foldr_effects_highScore_first delta l1 o l2 s :
  Forall (fun o' => checkCollision s (advance (speed s) delta o') = false)
    l1 ->
  checkCollision s (advance (speed s) delta o) = true ->
  highScore (foldr (effects rand delta) s (l1 ++ o :: l2))
  = Z.max (highScore s)
      (score s
       + 100 * Z.of_nat (length (newly_passed (speed s) delta (o :: l2)))).
Proof.
  intros Hl1 Ho. rewrite foldr_app.
  set (F := foldr (effects rand delta) s (o :: l2)).
  pose proof (foldr_effects_same_player delta (o :: l2) s) as HsameF.
  fold F in HsameF.
  rewrite foldr_effects_no_hit.
  2:{ eapply Forall_impl; [exact Hl1|]. cbn beta. intros o' Ho'.
      rewrite (checkCollision_same s F) by exact HsameF.
      by destruct HsameF as (_ & _ & _ & _ & _ & -> & _). }
  subst F. cbn [foldr].
  set (F2 := foldr (effects rand delta) s l2).
  pose proof (foldr_effects_same_player delta l2 s) as Hsame. fold F2 in Hsame.
  pose proof (foldr_effects_score delta l2 s) as Hsc. fold F2 in Hsc.
  destruct (foldr_effects_highScore_bounds delta l2 s) as (Hlo & Hhi).
  fold F2 in Hlo, Hhi.
  destruct (effects_fields delta o F2) as (_ & _ & -> & _). cbv zeta.
  rewrite (checkCollision_same s F2) by exact Hsame.
  destruct Hsame as (_ & _ & _ & _ & _ & -> & _).
  rewrite Ho, Hsc. unfold newly_passed in *. cbn [List.filter].
  destruct (scores _); cbn [length];
    match goal with
    | |- context [(?a <? ?b)%Z] => destruct (Z.ltb_spec a b)
    end; lia.
Qed.

(** C2, amended.  A frame of a game being played runs in this order.  The
    spawner first: the list the obstacle loop runs on is the old list with at
    most one new obstacle at its end, and the new one is moved in this frame
    like the others.  Then the obstacle loop, from the last obstacle to the
    first, each one moved, then scored on its moved position, then tested
    against the player as the player was before this frame's integration; an
    obstacle that scores and is hit has scored before the run ends.  Then the
    jump integrator, which runs whether or not the loop ended the run: the
    player after the frame is the player the integrator alone would give.
    Then the particles: those emitted in this frame are aged in it.  Once the
    run has ended, later frames leave obstacles, score and player alone.
    The direction of the loop shows in the best score: it is unchanged when
    no obstacle is hit, and otherwise it is raised to the score reached when
    the first obstacle of the list that is hit, the last such one visited,
    was visited, which counts the obstacles from that one to the end of the
    list and none of those in front of it. *)
Theorem frame_order (time : Q) (s : Game)
  (Hstarted : gameStarted s = true) (Hover : gameOver s = false) :
  let delta := frame_delta time s in
  let spd := baseSpeed + inject_Z (score s) * (5 # 100000) in
  let l := visited rand time s in
  let s' := animate rand time s in
  (exists extra,
     l = obstacles s ++ extra /\ (length extra <= 1)%nat
     /\ Forall (fun o => o_x o = 20 /\ o_passed o = false) extra)
  /\ obstacles s' = survivors spd delta l
  /\ score s' = (score s + 100 * Z.of_nat (length (newly_passed spd delta l)))%Z
  /\ gameOver s' = existsb (fun o => checkCollision s (advance spd delta o)) l
  /\ (forall o, In o l ->
        scores (move (spd * delta) delta o) = true ->
        checkCollision s (advance spd delta o) = true ->
        (score s + 100 <= highScore s')%Z)
  /\ same_dino (jump_physics rand delta s) s'
  /\ (exists new,
        particles (gameplay rand time s) = particles s ++ new
        /\ particles s' = aged (particles s ++ new))
  /\ (forall time', gameOver s' = true ->
        obstacles (animate rand time' s') = obstacles s'
        /\ score (animate rand time' s') = score s'
        /\ same_dino s' (animate rand time' s'))
  /\ (Forall (fun o => checkCollision s (advance spd delta o) = false) l ->
      highScore s' = highScore s)
  /\ (forall l1 o l2,
        l = l1 ++ o :: l2 ->
        Forall (fun o' => checkCollision s (advance spd delta o') = false)
          l1 ->
        checkCollision s (advance spd delta o) = true ->
        highScore s'
        = Z.max (highScore s)
            (score s
             + 100 * Z.of_nat (length (newly_passed spd delta (o :: l2))))).
Proof.
  intros delta spd l s'.
  assert (Hp : gameStarted s && negb (gameOver s) = true)
    by (by rewrite Hstarted, Hover).
  set (s0 := set_lastTime time s).
  assert (Hl : l = obstacles (pre_loop rand delta s0)).
  { subst l. unfold visited. by rewrite Hp. }
  destruct (pre_loop_fields delta s0)
    as (Hsc2 & Hgo2 & Hhs2 & _ & _ & _ & _ & _ & _ & _ & Hspd2).
  change (score s0) with (score s) in *.
  change (gameOver s0) with (gameOver s) in *.
  fold spd in Hspd2.
  assert (Hd2 : same_dino s (pre_loop rand delta s0))
    by apply (pre_loop_same_dino delta s0).
  destruct (playing_fields delta s0) as (HscP & HgoP & HhsP & _ & _ & HobP).
  cbv zeta in *. rewrite Hspd2, <- Hl in *.
  assert (Hg : gameplay rand time s = playing rand delta s0)
    by (by rewrite gameplay_playing).
  destruct (animate_shape time s) as (x & y & k & Hshape).
  fold s' in Hshape. rewrite Hg in Hshape.
  assert (Hcol : forall o,
             checkCollision (pre_loop rand delta s0) (advance spd delta o)
             = checkCollision s (advance spd delta o)).
  { intros o. unfold checkCollision. by rewrite (dinoBox_same _ _ Hd2). }
  split; [|split; [|split; [|split; [|split; [|split; [|split;
    [|split; [|split]]]]]]]].
  - rewrite Hl. unfold pre_loop.
    destruct (spawn_shape delta (update_speed s0))
      as (extra & tm & k' & -> & Hlen & Hall).
    by exists extra.
  - rewrite Hshape. exact HobP.
  - rewrite Hshape. cbn [score set_rng set_camera set_particles].
    rewrite HscP, foldr_effects_score, Hsc2, Hspd2. reflexivity.
  - rewrite Hshape. cbn [gameOver set_rng set_camera set_particles].
    rewrite HgoP, foldr_effects_gameOver, Hgo2, Hover, Hspd2.
    unfold checkCollision. by rewrite (dinoBox_same _ _ Hd2).
  - intros o Hin Hs Hc. rewrite Hshape.
    cbn [highScore set_rng set_camera set_particles]. rewrite HhsP.
    rewrite <- Hsc2.
    apply (foldr_effects_scored_then_hit delta l _ o Hin).
    + by rewrite Hspd2.
    + rewrite Hspd2. unfold checkCollision in *.
      by rewrite (dinoBox_same _ _ Hd2).
  - pose proof (animate_player time s) as H. by rewrite Hp in H.
  - destruct (gameplay_more_particles time s) as (new & Hnew).
    exists new. split; [exact Hnew|].
    subst s'. by rewrite animate_particles, Hnew.
  - intros time' Hgo.
    assert (Hidle : gameStarted s' && negb (gameOver s') = false)
      by (by rewrite Hgo, andb_false_r).
    rewrite animate_obstacles, animate_score, gameplay_idle by exact Hidle.
    split; [reflexivity|]. split; [reflexivity|].
    pose proof (animate_player time' s') as H. by rewrite Hidle in H.
  - intros Hall. rewrite Hshape.
    cbn [highScore set_rng set_camera set_particles]. rewrite HhsP.
    rewrite foldr_effects_no_hit; [exact Hhs2|].
    rewrite Hspd2. eapply Forall_impl; [exact Hall|].
    cbn beta. intros o Ho. by rewrite Hcol.
  - intros l1 o l2 Hsplit Hl1 Ho. rewrite Hshape.
    cbn [highScore set_rng set_camera set_particles]. rewrite HhsP, Hsplit.
    rewrite foldr_effects_highScore_first.
    + by rewrite Hspd2, Hsc2, Hhs2.
    + rewrite Hspd2. eapply Forall_impl; [exact Hl1|].
      cbn beta. intros o' Ho'. by rewrite Hcol.
    + by rewrite Hspd2, Hcol.
Qed.

(** *** Scoring over a run *)

(** The list a frame of a game being played visits is the old list, with
    what the spawner made, not yet passed, at its end. *)
Lemma visited_shape time s :
  gameStarted s && negb (gameOver s) = true ->
  exists extra,
    visited rand time s = obstacles s ++ extra
    /\ Forall (fun o => o_x o = 20 /\ o_passed o = false) extra.
Proof.
  intros Hp. unfold visited, pre_loop. rewrite Hp.
  destruct (spawn_shape (frame_delta time s)
              (update_speed (set_lastTime time s)))
    as (extra & tm & k & -> & _ & Hall).
  by exists extra.
Qed.

Lemma unpassed_app l extra :
  Forall (fun o => o_x o = 20 /\ o_passed o = false) extra ->
  unpassed (l ++ extra) = (unpassed l + length extra)%nat.
Proof.
  intros Hall. unfold unpassed. rewrite List.filter_app, length_app.
  f_equal. induction Hall as [|o extra (_ & Ho) _ IH]; [done|].
  cbn [List.filter length]. rewrite Ho. cbn [negb length]. by rewrite IH.
Qed.

(** An input that does not begin a run leaves the obstacles and the score
    as they are. *)
Lemma handler_within_run e s :
  (forall time, e <> Frame time) ->
  begins_run e s = false ->
  obstacles (step rand e s) = obstacles s
  /\ score (step rand e s) = score s.
Proof.
  intros He Hb. unfold begins_run in Hb.
  destruct e as [c|c| | |time]; cbn [step].
  - unfold onKeyDown.
    destruct c; cbn [is_jump_key is_down_key is_start andb] in *;
      try (apply orb_false_elim in Hb as (Hgs & Hgo);
           apply negb_false_iff in Hgs; rewrite Hgs, Hgo; cbn [negb];
           by destruct (jump_shape s) as (v & j & ps & k & ->)).
    + destruct (gameStarted s && negb (gameOver s)); cbn; done.
    + done.
  - clear Hb. unfold onKeyUp. destruct (is_down_key c); [|done].
    destruct (negb _); cbn; done.
  - unfold onPointerDown. cbn [is_start andb] in Hb.
    apply orb_false_elim in Hb as (Hgs & Hgo).
    apply negb_false_iff in Hgs. rewrite Hgs, Hgo. cbn [negb].
    destruct (negb _); cbn; done.
  - clear Hb. unfold onPointerUp. destruct (_ || _); [done|].
    destruct (isDucking s).
    + by destruct (jump_shape (set_pos_y baseY (set_scale_y 1
                  (set_isDucking false s)))) as (v & j & ps & k & ->).
    + by destruct (jump_shape s) as (v & j & ps & k & ->).
  - by destruct (He time).
Qed.

(** One event that does not begin a run: the score does not go down, and
    the credit goes up by 100 for each obstacle made, and by nothing else. *)
Lemma step_credit e s :
  begins_run e s = false ->
  (score s <= score (step rand e s))%Z
  /\ credit (step rand e s)
     = (credit s + 100 * Z.of_nat (spawned_by rand e s))%Z.
Proof.
  intros Hb. unfold credit.
  destruct (event_cases e) as [[time ->]|He].
  - cbn [step spawned_by].
    destruct (score_once_per_frame time s) as (Hle & Hsc & Hobs & _).
    cbv zeta in *. split; [exact Hle|].
    destruct (gameStarted s && negb (gameOver s)) eqn:Hp.
    + destruct Hobs as (_ & Hcredit).
      destruct (visited_shape time s Hp) as (extra & Hv & Hall).
      rewrite Hcredit, Hv, (unpassed_app _ _ Hall), length_app. lia.
    + rewrite Hobs, Hsc. unfold visited. rewrite Hp. cbn. lia.
  - destruct (handler_within_run e s He Hb) as (-> & ->).
    destruct e; try (cbn; lia). by destruct (He time).
Qed.

(** The same over the events of a run. *)
Lemma run_credit es : forall s,
  within_run rand es s = true ->
  (score s <= score (run rand es s))%Z
  /\ credit (run rand es s)
     = (credit s + 100 * Z.of_nat (spawned_in rand es s))%Z.
Proof.
  induction es as [|e es IH]; intros s Hrun.
  - cbn. lia.
  - cbn [within_run] in Hrun. apply andb_true_iff in Hrun as (Hb & Hrun).
    apply negb_true_iff in Hb.
    destruct (step_credit e s Hb) as (Hle & Hc).
    destruct (IH _ Hrun) as (Hle' & Hc').
    change (run rand (e :: es) s) with (run rand es (step rand e s)).
    cbn [spawned_in]. split; [lia|]. rewrite Hc', Hc. lia.
Qed.

(** A run begins with score 0 and no obstacle. *)
Lemma begins_run_fresh e s :
  reachable rand s -> begins_run e s = true ->
  score (step rand e s) = 0%Z /\ obstacles (step rand e s) = [].
Proof.
  intros Hr Hb. unfold begins_run in Hb.
  apply andb_true_iff in Hb as (He & Hm).
  destruct (gameStarted s) eqn:Hgs.
  - cbn [negb orb] in Hm.
    destruct e as [[| | |]|c| | |time]; try discriminate; cbn [step];
      unfold onKeyDown, onPointerDown; cbn [is_jump_key is_down_key andb];
      rewrite Hgs, Hm; cbn; done.
  - destruct (reachable_idle_clean s Hr Hgs) as (Hobs & _).
    destruct e as [[| | |]|c| | |time]; try discriminate; cbn [step];
      unfold onKeyDown, onPointerDown; cbn [is_jump_key is_down_key andb];
      rewrite Hgs; cbn; by rewrite Hobs.
Qed.

(** C5.  Over the events of a run, frames and inputs alike, the score never
    goes down, and each obstacle is worth 100 once: the score, with 100 more
    for each obstacle of the list not yet passed, goes up over the run by
    100 for each obstacle made in it and by nothing else.  So what the score
    has gained is 100 for each obstacle that has been marked passed, whether
    still in the list or removed from it, and nothing for the others.  A run
    of the program begins with score 0 and no obstacle, so all along it the
    score is 100 times the number of obstacles made so far, less those of
    the list not yet passed.  This rests on what each event does.  An input of the run leaves the obstacles,
    with their passed marks, and the score alone.  A frame adds 100 for each
    obstacle it visits that has not been passed and whose moved position is
    left of the player's by more than 1, and nothing else; it marks that
    obstacle passed; a passed obstacle stays passed and does not score
    again, however long it stays left of the player; and an obstacle is
    removed only once it has been marked. *)
Theorem score_once_per_obstacle (es : list Event) (s : Game)
  (Hrun : within_run rand es s = true) :
  (score s <= score (run rand es s))%Z
  /\ (score (run rand es s)
       + 100 * Z.of_nat (unpassed (obstacles (run rand es s)))
      = score s + 100 * Z.of_nat (unpassed (obstacles s))
        + 100 * Z.of_nat (spawned_in rand es s))%Z
  /\ (forall e s0 es',
        reachable rand s0 -> begins_run e s0 = true ->
        within_run rand es' (step rand e s0) = true ->
        (score (run rand es' (step rand e s0))
         + 100 * Z.of_nat
                   (unpassed (obstacles (run rand es' (step rand e s0))))
         = 100 * Z.of_nat (spawned_in rand es' (step rand e s0)))%Z)
  /\ (forall e s0,
        (forall time, e <> Frame time) -> begins_run e s0 = false ->
        obstacles (step rand e s0) = obstacles s0
        /\ score (step rand e s0) = score s0)
  /\ (forall time s0,
        let delta := frame_delta time s0 in
        let spd := baseSpeed + inject_Z (score s0) * (5 # 100000) in
        let l := visited rand time s0 in
        let s' := animate rand time s0 in
        (score s0 <= score s')%Z
        /\ score s'
           = (score s0
              + 100 * Z.of_nat (length (newly_passed spd delta l)))%Z
        /\ (if gameStarted s0 && negb (gameOver s0) then
              obstacles s' = survivors spd delta l
              /\ (exists extra,
                    l = obstacles s0 ++ extra
                    /\ Forall (fun o => o_passed o = false) extra)
              /\ (score s' + 100 * Z.of_nat (unpassed (obstacles s'))
                  = score s0 + 100 * Z.of_nat (unpassed l))%Z
            else obstacles s' = obstacles s0)
        /\ (forall o, o_passed (advance spd delta o)
                      = o_passed o || scores (move (spd * delta) delta o))
        /\ (forall o, o_passed o && scores (move (spd * delta) delta o)
                      = false)
        /\ (forall o, offscreen (advance spd delta o) = true ->
                      o_passed (advance spd delta o) = true)).
Proof.
  destruct (run_credit es s Hrun) as (Hle & Hc). unfold credit in Hc.
  split; [exact Hle|]. split; [lia|]. split; [|split].
  - intros e s0 es' Hr Hb Hw.
    destruct (run_credit es' _ Hw) as (_ & Hc'). unfold credit in Hc'.
    destruct (begins_run_fresh e s0 Hr Hb) as (H0 & Hnil).
    rewrite H0, Hnil in Hc'. change (unpassed []) with 0%nat in Hc'. lia.
  - intros e s0. apply handler_within_run.
  - intros time s0.
    destruct (score_once_per_frame time s0) as (H1 & H2 & H3 & H4 & H5).
    cbv zeta in *.
    split; [exact H1|]. split; [exact H2|]. split; [|split; [exact H4|]].
    + destruct (gameStarted s0 && negb (gameOver s0)) eqn:Hp; [|exact H3].
      destruct H3 as (H3 & H3').
      split; [exact H3|]. split; [|exact H3'].
      destruct (visited_shape time s0 Hp) as (extra & Hv & Hall).
      exists extra. split; [exact Hv|].
      eapply Forall_impl; [exact Hall|]. cbn beta. tauto.
    + split; [exact H5|].
      intros o Hoff. rewrite advance_passed.
      destruct (o_passed o) eqn:Ho; [done|].
      cbn [orb]. by apply offscreen_scores.
Qed.

End Properties.

(** ** Runs on concrete inputs *)

Lemma reachable_run rand es s :
  reachable rand s -> reachable rand (run rand es s).
Proof.
  revert s. induction es as [|e es IH]; intros s Hs; [exact Hs|].
  apply IH. by constructor.
Qed.

Example ducked_state :
  gameStarted ducked = true /\ gameOver ducked = false
  /\ isDucking ducked = true /\ isJumping ducked = false
  /\ pos_y (dino ducked) = baseY - (5 # 10).
Proof. vm_compute. tauto. Qed.

(** C1, as stated, fails: after the start and a press of the down arrow the
    state is reachable and the player is below the base height. *)
Lemma height_below_base :
  reachable draws0 ducked /\ pos_y (dino ducked) < baseY.
Proof.
  split.
  - apply reachable_run. constructor.
  - vm_compute. reflexivity.
Qed.

(** The height theorem at that state. *)
Lemma height_floor_witness :
  reachable draws0 ducked
  /\ baseY - (5 # 10) <= pos_y (dino ducked)
  /\ (pos_y (dino ducked) < baseY -> pos_y (dino ducked) = baseY - (5 # 10)).
Proof.
  assert (H : reachable draws0 ducked)
    by (apply reachable_run; constructor).
  split; [exact H|].
  split; [exact (proj1 (height_floor draws0 ducked H))
         |exact (proj1 (proj2 (height_floor draws0 ducked H)))].
Defined.

(** The frame of [jump_into_cactus]: the run ends, and the jump is integrated
    all the same: the player rises by 0.35, the velocity drops to 0.335. *)
Example jump_into_cactus_frame :
  let s := jump_into_cactus in
  let s' := animate draws0 (1667 # 100) s in
  gameStarted s = true /\ gameOver s = false /\ isJumping s = true
  /\ frame_delta (1667 # 100) s == 1
  /\ gameOver s' = true
  /\ pos_y (dino s') == pos_y (dino s) + (35 # 100)
  /\ ~ pos_y (dino s') == pos_y (dino s)
  /\ jumpVelocity s' == 335 # 1000.
Proof. vm_compute. repeat split; discriminate. Qed.

(** The obstacle loop runs from the end of the list.  With two cacti, the
    first of the list about to cross the scoring line and the second at the
    player, a frame of delta 1 visits the second first: the run ends on it
    with score 0, so the best score stays 0, and the first scores its 100
    afterwards.  A loop from the front would have scored first and ended the
    run with a best score of 100. *)
Example loop_runs_backwards :
  let s' := animate draws0 (1667 # 100) two_cacti in
  frame_delta (1667 # 100) two_cacti == 1
  /\ map (fun o => checkCollision two_cacti (advance (15 # 100) 1 o))
       (obstacles two_cacti) = [false; true]
  /\ map (fun o => scores (move ((15 # 100) * 1) 1 o)) (obstacles two_cacti)
     = [true; false]
  /\ gameOver s' = true /\ score s' = 100%Z
  /\ highScore s' = 0%Z /\ storage s' = None.
Proof. vm_compute. repeat split; discriminate. Qed.

(** The frame theorem at that state. *)
Lemma frame_order_witness :
  gameStarted jump_into_cactus = true /\ gameOver jump_into_cactus = false
  /\ same_dino
       (jump_physics draws0 (frame_delta (1667 # 100) jump_into_cactus)
          jump_into_cactus)
       (animate draws0 (1667 # 100) jump_into_cactus).
Proof.
  split; [reflexivity|]. split; [reflexivity|].
  exact (proj1 (proj2 (proj2 (proj2 (proj2 (proj2
    (frame_order draws0 (1667 # 100) jump_into_cactus
       eq_refl eq_refl))))))).
Defined.

(** The start theorem at the initial state, for the space bar. *)
Lemma start_resets_witness :
  gameStarted (initial None) = false
  /\ is_start (KeyDown Space) = true
  /\ gameStarted (step draws0 (KeyDown Space) (initial None)) = true
  /\ score (step draws0 (KeyDown Space) (initial None)) = 0%Z
  /\ speed (step draws0 (KeyDown Space) (initial None)) = baseSpeed
  /\ obstacles (step draws0 (KeyDown Space) (initial None)) = []
  /\ particles (step draws0 (KeyDown Space) (initial None)) = []
  /\ obstacleTimer (step draws0 (KeyDown Space) (initial None)) = 0.
Proof.
  split; [reflexivity|]. split; [reflexivity|].
  pose proof (start_resets draws0 (initial None) (KeyDown Space)
                eq_refl eq_refl) as H.
  cbv zeta in H.
  destruct H as (_ & H1 & _ & H2 & H3 & _ & _ & _ & H4).
  destruct (H4 (reachable_initial draws0 None)) as (H5 & H6 & H7).
  repeat (split; [assumption|]). assumption.
Defined.

(** What the start writes and what it leaves: on a state not yet started
    that holds a score of 300, a speed of 0.165, one obstacle and a timer at
    7, a pointer press sets the score to 0 and the speed to the base speed,
    and the obstacle and the timer are still there. *)
Example start_on_stale_state :
  let s' := step draws0 PointerDown stale_idle in
  gameStarted stale_idle = false
  /\ score stale_idle = 300%Z /\ speed stale_idle = (165 # 1000)
  /\ gameStarted s' = true /\ score s' = 0%Z /\ speed s' = baseSpeed
  /\ obstacles s' = obstacles stale_idle /\ length (obstacles s') = 1%nat
  /\ obstacleTimer s' = 7.
Proof. vm_compute. repeat split. Qed.

(** C4, as stated, fails: in a frame whose delta is 2 the first particle of
    a jump burst moves by its velocity, not by twice its velocity, and loses
    0.02 of life, not 0.04. *)
Lemma particles_ignore_delta :
  let s := jumped in
  let s' := animate draws34 (3334 # 100) s in
  frame_delta (3334 # 100) s == 2
  /\ exists p p',
       particles s !! 0%nat = Some p /\ particles s' !! 0%nat = Some p'
       /\ vx (p_velocity p) == 5 # 100
       /\ vx (p_pos p') == vx (p_pos p) + vx (p_velocity p)
       /\ ~ vx (p_pos p') == vx (p_pos p) + vx (p_velocity p) * 2
       /\ p_life p' == p_life p - (2 # 100)
       /\ ~ p_life p' == p_life p - (2 # 100) * 2.
Proof.
  split; [vm_compute; reflexivity|].
  eexists _, _. split; [vm_compute; reflexivity|].
  split; [vm_compute; reflexivity|].
  vm_compute. repeat split; discriminate.
Qed.

(** The particle theorem at the initial state, where no game is played. *)
Lemma particles_age_per_frame_witness :
  gameStarted (initial None) && negb (gameOver (initial None)) = false
  /\ particles (animate draws0 0 (initial None))
     = aged (particles (initial None)).
Proof.
  split; [reflexivity|].
  exact (proj2 (proj2 (proj2
    (particles_age_per_frame draws0 0 (initial None)))) eq_refl).
Defined.

(** A frame in which the cactus of [jump_into_cactus], moved far enough to
    the left, scores: the score goes from 0 to 100 and the cactus is marked;
    in the frame after that it scores nothing more. *)
Example score_once_example :
  let s := set_obstacles
             [mkObstacle cactus (-5) groundY (8 # 10) (25 # 10) 0 false]
             jump_into_cactus in
  let s1 := animate draws0 (1667 # 100) s in
  let s2 := animate draws0 (3334 # 100) s1 in
  score s = 0%Z /\ score s1 = 100%Z /\ score s2 = 100%Z
  /\ map o_passed (obstacles s1) = [true]
  /\ map o_passed (obstacles s2) = [true].
Proof. vm_compute. tauto. Qed.

(** A run in which the player jumps over the first cactus: it is one run,
    the game is still being played at its end, two obstacles have been made,
    the first has been passed and the second has not, and the score is
    100. *)
Example over_the_cactus_run :
  let s' := run draws0 over_the_cactus started in
  within_run draws0 over_the_cactus started = true
  /\ gameOver s' = false
  /\ spawned_in draws0 over_the_cactus started = 2%nat
  /\ map o_passed (obstacles s') = [true; false]
  /\ score s' = 100%Z.
Proof. lazy. repeat split. Qed.

(** The scoring theorem on that run. *)
Lemma score_once_per_obstacle_witness :
  within_run draws0 over_the_cactus started = true
  /\ (score started <= score (run draws0 over_the_cactus started))%Z
  /\ (score (run draws0 over_the_cactus started)
       + 100 * Z.of_nat
                 (unpassed (obstacles (run draws0 over_the_cactus started)))
      = score started + 100 * Z.of_nat (unpassed (obstacles started))
        + 100 * Z.of_nat (spawned_in draws0 over_the_cactus started))%Z.
Proof.
  assert (H : within_run draws0 over_the_cactus started = true)
    by (lazy; reflexivity).
  split; [exact H|].
  destruct (score_once_per_obstacle draws0 over_the_cactus started H)
    as (H1 & H2 & _).
  split; [exact H1|exact H2].
Defined.

(** With 100 stored, a run that ends at 150 stores 150; the next run, which
    ends at 90, leaves 150 stored. *)
Example best_score_scenario :
  let s1 := endGame draws0 (ends_at 150 (Some 100%Z)) in
  let s2 := endGame draws0 (set_score 90 (step draws0 (KeyDown Space) s1)) in
  storage s1 = Some 150%Z /\ highScore s1 = 150%Z
  /\ gameOver s1 = true /\ gameOver (step draws0 (KeyDown Space) s1) = false
  /\ storage s2 = Some 150%Z /\ highScore s2 = 150%Z.
Proof. vm_compute. tauto. Qed.

(** The best-score theorem at the end of the first of these runs. *)
Lemma best_score_on_game_over_witness :
  best_synced (ends_at 150 (Some 100%Z))
  /\ storage (endGame draws0 (ends_at 150 (Some 100%Z))) = Some 150%Z
  /\ stored_best (endGame draws0 (ends_at 150 (Some 100%Z))) = 150%Z.
Proof.
  split; [reflexivity|].
  destruct (best_score_on_game_over draws0 (ends_at 150 (Some 100%Z)) eq_refl)
    as (H1 & H2 & _).
  split; [exact H1|exact H2].
Defined.

(** The spawn interval theorem between the scores 0 and 1000. *)
Lemma spawnInterval_antitone_witness :
  (0 <= 1000)%Z
  /\ spawnInterval 1000 <= spawnInterval 0
  /\ 50 <= spawnInterval 0 /\ 50 <= spawnInterval 1000.
Proof.
  assert (H : (0 <= 1000)%Z) by lia.
  split; [exact H|]. exact (spawnInterval_antitone 0 1000 H).
Defined.

Example spawnInterval_values :
  spawnInterval 0 == 100 /\ spawnInterval 1000 == 70
  /\ spawnInterval 2000 == 50 /\ spawnInterval 100000 == 50.
Proof. vm_compute. tauto. Qed.

(** C8, as stated, fails: at the initial position the ducking and the
    standing box have the same width. *)
Lemma hitbox_width_same :
  b_width (dinoBox (set_isDucking true (initial None)))
  = b_width (dinoBox (set_isDucking false (initial None)))
  /\ ~ (b_width (dinoBox (set_isDucking true (initial None)))
        <> b_width (dinoBox (set_isDucking false (initial None)))).
Proof. split; [reflexivity|]. intros H. by apply H. Qed.

(** The airborne-duck theorem at the state right after a jump. *)
Lemma airborne_duck_keyboard_only_witness :
  gameStarted jumped = true /\ gameOver jumped = false
  /\ isJumping jumped = true
  /\ isDucking (onKeyDown draws34 ArrowDown jumped) = true
  /\ pos_y (dino (onKeyDown draws34 ArrowDown jumped)) = baseY - (5 # 10)
  /\ onPointerDown jumped = jumped.
Proof.
  assert (H1 : gameStarted jumped = true) by reflexivity.
  assert (H2 : gameOver jumped = false) by reflexivity.
  assert (H3 : isJumping jumped = true) by reflexivity.
  pose proof (airborne_duck_keyboard_only draws34 jumped H1 H2 H3) as H.
  cbv zeta in H. tauto.
Defined.

(** The velocity theorem at the ducked state, where the player is grounded. *)
Lemma grounded_velocity_zero_witness :
  reachable draws0 ducked /\ isJumping ducked = false
  /\ jumpVelocity ducked = 0.
Proof.
  assert (H : reachable draws0 ducked)
    by (apply reachable_run; constructor).
  split; [exact H|]. split; [reflexivity|].
  exact (proj1 (grounded_velocity_zero draws0 ducked H) eq_refl).
Defined.

(** C2, as stated, fails.  Start the game, let 125 frames pass and jump: the
    state reached is being played, the player is airborne at the base height
    with velocity 0.35, and the first cactus is at x = -2.5.  In the next
    frame, of delta 2, the cactus moves to x = -2.8 and touches the player's
    box: the run ends.  The jump is integrated in that same frame all the
    same: the player rises by 0.7 and the velocity drops to 0.32. *)
Lemma physics_after_game_over :
  let s := run draws0 to_the_cactus (initial None) in
  let s' := animate draws0 4284 s in
  reachable draws0 s
  /\ gameStarted s = true /\ gameOver s = false /\ isJumping s = true
  /\ pos_y (dino s) == baseY /\ jumpVelocity s == 35 # 100
  /\ frame_delta 4284 s == 2
  /\ map (fun o => (o_type o, Qred (o_x o), o_passed o)) (obstacles s)
     = [(cactus, -5 # 2, false); (cactus, 64 # 5, false)]
  /\ gameOver s' = true
  /\ pos_y (dino s') == baseY + (35 # 100) * 2
  /\ ~ pos_y (dino s') == pos_y (dino s)
  /\ jumpVelocity s' == (35 # 100) - (15 # 1000) * 2.
Proof.
  intros s s'. split; [apply reachable_run; constructor|].
  lazy. repeat split; discriminate.
Qed.

(** ** Further properties of the code *)

(** Each comparison of the source, as a proposition. *)
Ltac cmp_cases :=
  repeat match goal with
  | |- context [Qltb ?a ?b] =>
      let E := fresh "E" in
      destruct (Qltb a b) eqn:E;
      [apply Qltb_lt in E | apply Qltb_ge in E]
  | |- context [Qleb ?a ?b] =>
      let E := fresh "E" in
      destruct (Qleb a b) eqn:E;
      [apply Qleb_le in E | apply Qleb_gt in E]
  end.

Section Further.
Variable rand : nat -> Q.

(** *** Collision geometry *)

(** X1.  The box test is symmetric, and it is the non-strict intersection of
    the two boxes on both axes: boxes that only touch do collide. *)
Theorem overlap_symmetric (a b : Box) :
  overlap a b = overlap b a
  /\ (overlap a b = true <->
      b_x b <= b_x a + b_width a /\ b_x a <= b_x b + b_width b
      /\ b_y b <= b_y a + b_height a /\ b_y a <= b_y b + b_height b).
Proof.
  unfold overlap. split.
  - cmp_cases; reflexivity.
  - cmp_cases; cbn; split; try tauto; try discriminate;
      intros (? & ? & ? & ?); lra.
Qed.

Ltac unfold_collision :=
  unfold checkCollision, overlap, dinoBox, obsBox, x_within, x_apart, margin,
    scores, dino_x, baseY, groundY in *;
  cbn [b_x b_y b_width b_height o_x o_y o_width o_height o_passed] in *;
  unfold Qdiv in *; change (/ 2) with (1 # 2) in *.

(** X2.  Against an obstacle that stands on the ground and is 2.5 high (a
    cactus, single or double) the duck posture is of no use.  A player, in
    either posture, not lower than the duck height and not higher than the
    top of the obstacle is hit when the boxes overlap horizontally; a player
    above the top of the obstacle, that is 2.1 above the base height, or
    horizontally apart from it, is not.  Each bound is kept by the margin. *)
Theorem ground_obstacle_hit (s : Game) (o : Obstacle)
  (Hy : o_y o == groundY) (Hh : o_height o == 25 # 10) :
  (x_within o ->
   baseY - (5 # 10) - margin <= pos_y (dino s) ->
   pos_y (dino s) <= groundY + (25 # 10) - margin ->
   checkCollision s o = true)
  /\ (x_apart o \/ groundY + (25 # 10) + margin <= pos_y (dino s) ->
      checkCollision s o = false).
Proof.
  unfold_collision. split.
  - intros (? & ?) ? ?.
    destruct (isDucking s); cmp_cases; cbn; try reflexivity; lra.
  - intros [[?|?]|?];
      destruct (isDucking s); cmp_cases; cbn; try reflexivity; lra.
Qed.

(** X3.  The low pterodactyl (0.8 below zero, 1.5 high) hits a standing
    player who is between the base height and its top when the boxes overlap
    horizontally, hits nobody who is horizontally apart from it, and never
    hits a player in the duck posture at the duck height; the high
    pterodactyl (at height 1) never hits a player at or below the base
    height.  Each bound is kept by the margin. *)
Theorem pterodactyl_hit (s : Game) (o : Obstacle)
  (Hh : o_height o == 15 # 10) :
  (o_y o == groundY + (12 # 10) ->
     (isDucking s = false -> x_within o ->
      baseY - margin <= pos_y (dino s) ->
      pos_y (dino s) <= groundY + (27 # 10) - margin ->
        checkCollision s o = true)
     /\ (x_apart o -> checkCollision s o = false)
     /\ (isDucking s = true ->
         pos_y (dino s) <= baseY - (5 # 10) + margin ->
           checkCollision s o = false))
  /\ (o_y o == groundY + 3 -> pos_y (dino s) <= baseY + margin ->
        checkCollision s o = false).
Proof.
  unfold_collision. split; [intros Hy; split; [|split]|].
  - intros Hd (? & ?) ? ?. rewrite Hd.
    cmp_cases; cbn; try reflexivity; lra.
  - intros [?|?];
      destruct (isDucking s); cmp_cases; cbn; try reflexivity; lra.
  - intros Hd ?. rewrite Hd. cmp_cases; cbn; try reflexivity; lra.
  - intros Hy ?.
    destruct (isDucking s); cmp_cases; cbn; try reflexivity; lra.
Qed.

(** X4.  An obstacle that has scored cannot be met by the player's box any
    more, wherever the player is: so it is, by the scoring test itself, for
    an obstacle narrower than 1.2 by twice the margin (a single cactus is
    0.8 wide), and for one up to 1.2 wide (a pterodactyl) once it is left of
    the scoring line by the margin. *)
Theorem scored_narrow_cannot_hit (s : Game) (o : Obstacle) :
  (o_width o <= (12 # 10) - 2 * margin ->
   Qltb (o_x o) (dino_x - 1) = true ->
   checkCollision s o = false)
  /\ (o_width o <= 12 # 10 ->
      o_x o <= dino_x - 1 - margin ->
      checkCollision s o = false).
Proof.
  split.
  - intros Hw Hleft. apply Qltb_lt in Hleft. unfold_collision.
    cmp_cases; cbn; try reflexivity; lra.
  - intros Hw Hleft. unfold_collision.
    cmp_cases; cbn; try reflexivity; lra.
Qed.

(** *** Bursts *)

Lemma drawn_burst_refl s : drawn_burst 0 0 s s.
Proof.
  exists []. split; [done|]. split; [constructor|].
  destruct s; cbn. by rewrite app_nil_r.
Qed.

Lemma drawn_burst_trans n m d e s1 s2 s3 :
  drawn_burst n d s1 s2 -> drawn_burst m e s2 s3 ->
  drawn_burst (n + m) (e + d) s1 s3.
Proof.
  intros (ps & Hn & Hps & ->) (qs & Hm & Hqs & ->).
  exists (ps ++ qs). split; [rewrite length_app; lia|].
  split; [by apply Forall_app|].
  unfold set_particles, set_rng; cbn. by rewrite app_assoc, Nat.add_assoc.
Qed.

Lemma drawn_burst_iter f k d n s :
  (forall s, drawn_burst k d s (f s)) ->
  drawn_burst (n * k) (n * d) s (Nat.iter n f s).
Proof.
  intros Hf. induction n as [|n IH].
  - apply drawn_burst_refl.
  - change (drawn_burst (k + n * k) (d + n * d) s (f (Nat.iter n f s))).
    rewrite (Nat.add_comm k). eapply drawn_burst_trans; [apply IH | apply Hf].
Qed.

Lemma createJumpParticle_drawn s :
  drawn_burst 1 6 s (createJumpParticle rand s).
Proof.
  eexists [_]. split; [done|]. split; [|reflexivity].
  by repeat constructor.
Qed.

Lemma createDeathParticle_drawn s :
  drawn_burst 1 7 s (createDeathParticle rand s).
Proof.
  eexists [_]. split; [done|]. split; [|reflexivity].
  by repeat constructor.
Qed.

Lemma createScoreParticle_drawn s :
  drawn_burst 1 4 s (createScoreParticle rand s).
Proof.
  eexists [_]. split; [done|]. split; [|reflexivity].
  by repeat constructor.
Qed.

Lemma createJumpParticles_drawn s :
  drawn_burst 15 90 s (createJumpParticles rand s).
Proof.
  apply (drawn_burst_iter (createJumpParticle rand) 1 6 15),
    createJumpParticle_drawn.
Qed.

Lemma createDeathParticles_drawn s :
  drawn_burst 40 280 s (createDeathParticles rand s).
Proof.
  apply (drawn_burst_iter (createDeathParticle rand) 1 7 40),
    createDeathParticle_drawn.
Qed.

Lemma createScoreParticles_drawn s :
  drawn_burst 8 32 s (createScoreParticles rand s).
Proof.
  apply (drawn_burst_iter (createScoreParticle rand) 1 4 8),
    createScoreParticle_drawn.
Qed.

(** X5.  Each burst appends its particles after those already there, all
    with life 1 and opacity 1: 15 of them for a jump or a landing, 40 for a
    death, 8 for a score.  Apart from the particles and from the place
    reached in the stream of draws, it leaves the state as it was. *)
Theorem bursts_counted (s : Game) :
  (exists ps k,
     length ps = 15%nat /\ Forall fresh ps
     /\ createJumpParticles rand s
        = set_particles (particles s ++ ps) (set_rng k s))
  /\ (exists ps k,
        length ps = 40%nat /\ Forall fresh ps
        /\ createDeathParticles rand s
           = set_particles (particles s ++ ps) (set_rng k s))
  /\ (exists ps k,
        length ps = 8%nat /\ Forall fresh ps
        /\ createScoreParticles rand s
           = set_particles (particles s ++ ps) (set_rng k s)).
Proof.
  split; [|split].
  - destruct (createJumpParticles_drawn s) as (ps & Hn & Hps & ->).
    by exists ps, (90 + rng s)%nat.
  - destruct (createDeathParticles_drawn s) as (ps & Hn & Hps & ->).
    by exists ps, (280 + rng s)%nat.
  - destruct (createScoreParticles_drawn s) as (ps & Hn & Hps & ->).
    by exists ps, (32 + rng s)%nat.
Qed.

(** *** Particles of reachable states *)

Lemma fresh_more_refl s : fresh_more s s.
Proof. exists []. split; [constructor|]. by rewrite app_nil_r. Qed.

Lemma fresh_more_trans s1 s2 s3 :
  fresh_more s1 s2 -> fresh_more s2 s3 -> fresh_more s1 s3.
Proof.
  intros (n1 & F1 & H1) (n2 & F2 & H2). exists (n1 ++ n2).
  split; [by apply Forall_app|]. by rewrite H2, H1, app_assoc.
Qed.

Lemma drawn_burst_fresh_more n d s s' :
  drawn_burst n d s s' -> fresh_more s s'.
Proof. intros (ps & _ & Hps & ->). by exists ps. Qed.

Lemma endGame_fresh_more s : fresh_more s (endGame rand s).
Proof.
  unfold endGame.
  destruct (createDeathParticles_drawn (set_gameOver true s))
    as (ps & _ & Hps & ->).
  exists ps. split; [exact Hps|].
  cbn [set_visible]. by destruct (_ <? _)%Z.
Qed.

Lemma effects_fresh_more delta o s : fresh_more s (effects rand delta o s).
Proof.
  unfold effects.
  set (s1 := if scores _ then _ else s).
  assert (H1 : fresh_more s s1).
  { subst s1. destruct (scores _); [|apply fresh_more_refl].
    destruct (createScoreParticles_drawn (set_score (score s + 100) s))
      as (ps & _ & Hps & ->).
    by exists ps. }
  destruct (checkCollision _ _); [|exact H1].
  eapply fresh_more_trans; [exact H1|apply endGame_fresh_more].
Qed.

Lemma foldr_effects_fresh_more delta l s :
  fresh_more s (foldr (effects rand delta) s l).
Proof.
  induction l as [|o l IH]; [apply fresh_more_refl|].
  eapply fresh_more_trans; [exact IH|apply effects_fresh_more].
Qed.

Lemma jump_physics_fresh_more delta s :
  fresh_more s (jump_physics rand delta s).
Proof.
  unfold jump_physics. destruct (isJumping s); [|apply fresh_more_refl].
  game_simpl.
  destruct (Qleb _ _);
    [|exists []; split; [constructor|cbn; by rewrite app_nil_r]].
  destruct (createJumpParticles_drawn
    (set_jumpVelocity 0 (set_isJumping false (set_pos_y baseY
      (set_jumpVelocity (jumpVelocity s - gravity * delta)
        (set_pos_y (pos_y (dino s) + jumpVelocity s * delta) s))))))
    as (ps & _ & Hps & ->).
  by exists ps.
Qed.

Lemma playing_fresh_more delta s : fresh_more s (playing rand delta s).
Proof.
  rewrite playing_eq.
  eapply fresh_more_trans; [|apply jump_physics_fresh_more].
  set (s2 := pre_loop rand delta s).
  destruct (foldr_effects_fresh_more delta (obstacles s2) s2)
    as (new & Hfresh & Hnew).
  exists new. split; [exact Hfresh|].
  cbn [set_obstacles particles]. rewrite Hnew. subst s2.
  by destruct (pre_loop_fields rand delta s)
    as (_ & _ & _ & _ & _ & _ & _ & _ & -> & _).
Qed.

Lemma gameplay_fresh_more time s : fresh_more s (gameplay rand time s).
Proof.
  unfold gameplay. game_simpl. destruct (_ && _).
  - destruct (playing_fresh_more (frame_delta time s) (set_lastTime time s))
      as (new & Hfresh & Hnew).
    exists new. by split.
  - exists []. split; [constructor|]. cbn. by rewrite app_nil_r.
Qed.

Lemma jump_fresh_more s : fresh_more s (jump rand s).
Proof.
  unfold jump. destruct (_ && _); [|apply fresh_more_refl].
  destruct (createJumpParticles_drawn
              (set_jumpVelocity (35 # 100) (set_isJumping true s)))
    as (ps & _ & Hps & ->).
  by exists ps.
Qed.

(** An input handler empties the particle list (the restart) or appends
    fresh particles to it (a jump), if it touches it at all. *)
Lemma handler_particles e s :
  (forall time, e <> Frame time) ->
  particles (step rand e s) = [] \/ fresh_more s (step rand e s).
Proof.
  intros He. destruct e as [c|c| | |time]; cbn [step].
  - unfold onKeyDown. destruct (is_jump_key c).
    + destruct (gameStarted s); cbn [negb].
      * destruct (gameOver s).
        -- left. by destruct (is_down_key c && _ && _).
        -- right. destruct (jump_fresh_more s) as (new & Hf & Hn).
           exists new. split; [exact Hf|].
           by destruct (is_down_key c && _ && _).
      * right. exists []. split; [constructor|].
        destruct (is_down_key c && _ && _); cbn; by rewrite app_nil_r.
    + right. exists []. split; [constructor|].
      destruct (is_down_key c && _ && _); cbn; by rewrite app_nil_r.
  - right. exists []. split; [constructor|]. unfold onKeyUp.
    destruct (is_down_key c); [destruct (negb _)|]; cbn; by rewrite app_nil_r.
  - unfold onPointerDown. destruct (gameStarted s); cbn [negb].
    + destruct (gameOver s); [by left|].
      right. exists []. split; [constructor|].
      destruct (negb _); cbn; by rewrite app_nil_r.
    + right. exists []. split; [constructor|]. cbn. by rewrite app_nil_r.
  - right. unfold onPointerUp. destruct (_ || _); [apply fresh_more_refl|].
    destruct (isDucking s); [|apply jump_fresh_more].
    destruct (jump_fresh_more (set_pos_y baseY (set_scale_y 1
                (set_isDucking false s)))) as (new & Hf & Hn).
    exists new. by split.
  - by destruct (He time).
Qed.

Lemma fresh_particle_ok p : fresh p -> particle_ok p.
Proof.
  intros (Hl & Ho). unfold particle_ok. rewrite Hl, Ho. repeat split; lra.
Qed.

Lemma aged_particle_ok l :
  Forall particle_ok l -> Forall particle_ok (aged l).
Proof.
  intros Hl. pose proof (aged_alive l) as Halive.
  apply List.Forall_forall. intros p Hp.
  pose proof (proj1 (List.Forall_forall _ _) Halive p Hp) as Hpos.
  apply List.filter_In in Hp as (Hp & _).
  apply List.in_map_iff in Hp as (q & <- & Hq).
  pose proof (proj1 (List.Forall_forall _ _) Hl q Hq) as (_ & Hle & _).
  unfold particle_ok, age in *. cbn [p_life p_opacity] in *.
  split; [exact Hpos|]. split; [lra|reflexivity].
Qed.

Lemma step_particles_ok e s :
  Forall particle_ok (particles s) ->
  Forall particle_ok (particles (step rand e s)).
Proof.
  intros Hs. destruct (event_cases e) as [[time ->]|He].
  - cbn [step]. rewrite animate_particles.
    destruct (gameplay_fresh_more time s) as (new & Hfresh & ->).
    apply aged_particle_ok, Forall_app. split; [exact Hs|].
    eapply Forall_impl; [exact Hfresh|apply fresh_particle_ok].
  - destruct (handler_particles e s He) as [->|(new & Hfresh & ->)];
      [constructor|].
    apply Forall_app. split; [exact Hs|].
    eapply Forall_impl; [exact Hfresh|apply fresh_particle_ok].
Qed.

Lemma reachable_particles_ok s :
  reachable rand s -> Forall particle_ok (particles s).
Proof.
  induction 1 as [stored|e s _ IH]; [constructor|].
  by apply step_particles_ok.
Qed.

(** X6.  In every reachable state every particle is alive, has at most full
    life, and is exactly as opaque as it is alive: no particle is ever kept
    with life 0 or less, and none is ever revived. *)
Theorem particles_alive (s : Game) (Hreach : reachable rand s) :
  Forall particle_ok (particles s).
Proof. by apply reachable_particles_ok. Qed.

(** *** Frames while no game is played *)

Lemma idle_frame time s :
  gameStarted s && negb (gameOver s) = false ->
  exists x y k,
    animate rand time s
    = set_rng k (set_camera x y
        (set_particles (aged (particles s)) (set_lastTime time s))).
Proof.
  intros Hidle. destruct (animate_shape rand time s) as (x & y & k & ->).
  rewrite gameplay_idle by exact Hidle. by exists x, y, k.
Qed.

(** X7.  Before the start and after the end of a run a frame touches only
    the clock, the particles, the camera and the count of draws: obstacles,
    score, best score, speed, timer and player stay as they are, and the game
    stays not played. *)
Theorem frame_frozen_when_not_playing (time : Q) (s : Game)
  (Hidle : gameStarted s && negb (gameOver s) = false) :
  exists x y k,
    animate rand time s
    = set_rng k (set_camera x y
        (set_particles (aged (particles s)) (set_lastTime time s))).
Proof. by apply idle_frame. Qed.

Lemma aged_bound b l :
  Forall (fun p => p_life p <= b) l ->
  Forall (fun p => p_life p <= b - (2 # 100)) (aged l).
Proof.
  intros Hl. apply List.Forall_forall. intros p Hp.
  apply List.filter_In in Hp as (Hp & _).
  apply List.in_map_iff in Hp as (q & <- & Hq).
  pose proof (proj1 (List.Forall_forall _ _) Hl q Hq) as Hle.
  unfold age. cbn [p_life] in *. lra.
Qed.

Lemma drain_frames ts : forall s b,
  gameStarted s && negb (gameOver s) = false ->
  Forall (fun p => p_life p <= b) (particles s) ->
  let s' := run rand (map Frame ts) s in
  gameStarted s' && negb (gameOver s') = false
  /\ Forall (fun p => p_life p
                      <= b - inject_Z (Z.of_nat (length ts)) * (2 # 100))
       (particles s')
  /\ (ts <> [] -> Forall (fun p => 0 < p_life p) (particles s')).
Proof.
  induction ts as [|t ts IH]; intros s b Hidle Hb.
  - cbn [map run fold_left length]. split; [exact Hidle|]. split; [|done].
    eapply Forall_impl; [exact Hb|]. cbn beta. intros p Hp.
    change (inject_Z (Z.of_nat 0)) with 0. lra.
  - cbn [map run fold_left step length].
    destruct (idle_frame t s Hidle) as (x & y & k & Hshape).
    destruct (IH (animate rand t s) (b - (2 # 100))) as (H1 & H2 & H3).
    + rewrite Hshape. exact Hidle.
    + rewrite Hshape. apply aged_bound, Hb.
    + fold (run rand (map Frame ts) (animate rand t s)).
      split; [exact H1|]. split.
      * eapply Forall_impl; [exact H2|]. cbn beta. intros p Hp.
        rewrite Nat2Z.inj_succ, <- Z.add_1_r, inject_Z_plus.
        change (inject_Z 1) with 1. lra.
      * intros _. destruct ts as [|t' ts'].
        -- cbn. rewrite Hshape. apply aged_alive.
        -- by apply H3.
Qed.

(** X8.  While no game is played the particles drain: from a reachable
    state, once 50 frames have gone by, whatever their timestamps, no
    particle is left, so the death burst and the camera shake that lasts as
    long as it are over at most 50 frames after the end of a run. *)
Theorem particles_drain (s : Game) (ts : list Q)
  (Hreach : reachable rand s)
  (Hidle : gameStarted s && negb (gameOver s) = false)
  (Hlen : (50 <= length ts)%nat) :
  particles (run rand (map Frame ts) s) = [].
Proof.
  assert (Hb : Forall (fun p => p_life p <= 1) (particles s)).
  { eapply Forall_impl; [apply reachable_particles_ok, Hreach|].
    by intros p (_ & H & _). }
  destruct (drain_frames ts s 1 Hidle Hb) as (_ & Hle & Hpos).
  cbv zeta in *.
  destruct (particles (run rand (map Frame ts) s)) as [|p l]; [done|].
  assert (Hne : ts <> []) by (intros ->; cbn in Hlen; lia).
  apply Forall_cons in Hle as (Hle & _).
  specialize (Hpos Hne). apply Forall_cons in Hpos as (Hpos & _).
  assert (Hn : 50 <= inject_Z (Z.of_nat (length ts))).
  { change 50 with (inject_Z 50). rewrite <- Zle_Qle. lia. }
  lra.
Qed.

(** *** Input handlers, case by case *)

(** All the paths through a handler; on each the state is explicit. *)
Ltac handler_cases rand e s He :=
  destruct e as [c|c| | |time]; cbn [step];
  [ unfold onKeyDown; destruct (is_jump_key c) eqn:?;
    [ destruct (gameStarted s) eqn:?; cbn [negb];
      [ destruct (gameOver s) eqn:?;
        [|destruct (jump_cases rand s)
            as [(? & ? & ?ps & ?k & ->)|(? & ->)]] |] |];
    destruct (is_down_key c && _ && _) eqn:?
  | unfold onKeyUp; destruct (is_down_key c) eqn:?;
    [destruct (negb _) eqn:?|]
  | unfold onPointerDown; destruct (gameStarted s) eqn:?; cbn [negb];
    [destruct (gameOver s) eqn:?; [|destruct (negb (isJumping s)) eqn:?]|]
  | unfold onPointerUp; destruct (_ || _) eqn:?;
    [|destruct (isDucking s) eqn:?;
      [destruct (jump_cases rand (set_pos_y baseY (set_scale_y 1
                   (set_isDucking false s))))
         as [(? & ? & ?ps & ?k & ->)|(? & ->)]
      |destruct (jump_cases rand s)
         as [(? & ? & ?ps & ?k & ->)|(? & ->)]]]
  | by destruct (He time) ].

(** An input handler leaves the obstacles, or clears them (the restart);
    leaves score and speed, or resets them (start and restart); leaves the
    timer, or zeroes it (the restart). *)
Lemma handler_run e s :
  (forall time, e <> Frame time) ->
  (obstacles (step rand e s) = obstacles s \/ obstacles (step rand e s) = [])
  /\ ((score (step rand e s) = score s /\ speed (step rand e s) = speed s)
      \/ (score (step rand e s) = 0%Z /\ speed (step rand e s) = baseSpeed))
  /\ (obstacleTimer (step rand e s) = obstacleTimer s
      \/ obstacleTimer (step rand e s) = 0)
  /\ lastTime (step rand e s) = lastTime s
  /\ camera_x (step rand e s) = camera_x s
  /\ camera_y (step rand e s) = camera_y s.
Proof. intros He. handler_cases rand e s He; cbn; tauto. Qed.

(** *** Obstacles of reachable states *)

Lemma createObstacle_kind s :
  exists o k,
    createObstacle rand s = set_rng k (set_obstacles (obstacles s ++ [o]) s)
    /\ spawned_ok (rand (rng s)) o.
Proof.
  unfold createObstacle, random, spawned_ok.
  destruct (Qltb (rand (rng s)) (6 # 10)); [|destruct (Qltb _ (85 # 100))].
  - unfold createCactus, random. game_simpl.
    destruct (Qltb (3 # 10) _); game_simpl;
      destruct (Qltb (5 # 10) _); game_simpl;
      eexists _, _; (split; [reflexivity|cbn; tauto]).
  - unfold createDoubleCactus, createCactus, random. game_simpl.
    destruct (Qltb (3 # 10) _); game_simpl;
      destruct (Qltb (5 # 10) _); game_simpl;
      destruct (Qltb (3 # 10) _); game_simpl;
      destruct (Qltb (5 # 10) _); game_simpl;
      eexists _, _; (split; [reflexivity|cbn; tauto]).
  - unfold createPterodactyl, random. game_simpl.
    destruct (Qltb (5 # 10) _);
      eexists _, _; (split; [reflexivity|cbn; tauto]).
Qed.

Lemma spawn_kind delta s :
  exists extra,
    obstacles (spawn rand delta s) = obstacles s ++ extra
    /\ (length extra <= 1)%nat
    /\ Forall (fun o => o_x o = 20 /\ o_passed o = false /\ kind_ok o) extra.
Proof.
  unfold spawn. game_simpl. destruct (Qltb _ _).
  - destruct (createObstacle_kind
                (set_obstacleTimer (obstacleTimer s + delta) s))
      as (o & k & -> & Hx & Hp & Hk & _).
    exists [o]. split; [reflexivity|]. split; [done|].
    by repeat constructor.
  - exists []. split; [cbn; by rewrite app_nil_r|].
    split; [cbn; lia|constructor].
Qed.

Lemma pre_loop_kind delta s :
  exists extra,
    obstacles (pre_loop rand delta s) = obstacles s ++ extra
    /\ (length extra <= 1)%nat
    /\ Forall (fun o => o_x o = 20 /\ o_passed o = false /\ kind_ok o) extra.
Proof. apply (spawn_kind delta (update_speed s)). Qed.

Lemma survivors_placed spd delta l :
  Forall obstacle_placed (survivors spd delta l).
Proof.
  apply List.Forall_forall. intros o' Ho.
  apply List.filter_In in Ho as (Ho & Hoff).
  apply List.in_map_iff in Ho as (o & <- & _).
  apply negb_true_iff, Qltb_ge in Hoff. split; [exact Hoff|].
  intros Hx. rewrite advance_passed.
  unfold scores. cbn [o_passed move].
  destruct (o_passed o); [done|]. cbn [negb andb orb].
  apply Qltb_lt. unfold advance in Hx.
  destruct (scores _); exact Hx.
Qed.

Lemma advance_kind spd delta o : kind_ok o -> kind_ok (advance spd delta o).
Proof. unfold advance, kind_ok. by destruct (scores _). Qed.

Lemma survivors_kind spd delta l :
  Forall kind_ok l -> Forall kind_ok (survivors spd delta l).
Proof.
  intros Hl. apply List.Forall_forall. intros o' Ho.
  apply List.filter_In in Ho as (Ho & _).
  apply List.in_map_iff in Ho as (o & <- & Ho).
  apply advance_kind. exact (proj1 (List.Forall_forall _ _) Hl o Ho).
Qed.

Lemma gameplay_obstacles time s :
  obstacles (gameplay rand time s)
  = (if gameStarted s && negb (gameOver s) then
       survivors (baseSpeed + inject_Z (score s) * (5 # 100000))
         (frame_delta time s)
         (obstacles (pre_loop rand (frame_delta time s)
                       (set_lastTime time s)))
     else obstacles s).
Proof.
  destruct (gameStarted s && negb (gameOver s)) eqn:Hp.
  - rewrite gameplay_playing by exact Hp.
    exact (playing_obstacles rand (frame_delta time s) (set_lastTime time s)).
  - by rewrite gameplay_idle.
Qed.

Lemma step_obstacles_ok e s :
  Forall obstacle_placed (obstacles s) /\ Forall kind_ok (obstacles s) ->
  Forall obstacle_placed (obstacles (step rand e s))
  /\ Forall kind_ok (obstacles (step rand e s)).
Proof.
  intros (Hpl & Hk). destruct (event_cases e) as [[time ->]|He].
  - cbn [step]. rewrite animate_obstacles, gameplay_obstacles.
    destruct (_ && _); [|by split].
    split; [apply survivors_placed|]. apply survivors_kind.
    destruct (pre_loop_kind (frame_delta time s) (set_lastTime time s))
      as (extra & -> & _ & Hextra).
    apply Forall_app. split; [exact Hk|].
    eapply Forall_impl; [exact Hextra|]. cbn. tauto.
  - destruct (handler_run e s He) as ([-> | ->] & _);
      [by split|split; constructor].
Qed.

Lemma reachable_obstacles_ok s :
  reachable rand s ->
  Forall obstacle_placed (obstacles s) /\ Forall kind_ok (obstacles s).
Proof.
  induction 1 as [stored|e s _ IH]; [split; constructor|].
  by apply step_obstacles_ok.
Qed.

(** X9.  In every reachable state no obstacle is further left than -15
    (the off-screen ones have been removed), and every obstacle behind the
    scoring line, 1 to the left of the player, has been passed: no score is
    ever pending on an obstacle between two frames. *)
Theorem obstacles_placed (s : Game) (Hreach : reachable rand s) :
  Forall obstacle_placed (obstacles s).
Proof. by apply reachable_obstacles_ok. Qed.

(** X10.  In every reachable state every obstacle has the collidable data of
    its kind: a cactus is on the ground, 0.8 wide and 2.5 high; a double
    cactus is on the ground, 2 wide and 2.5 high; a pterodactyl flies at
    ground + 3 or ground + 1.2, and is 1.2 wide and 1.5 high. *)
Theorem obstacles_of_three_kinds (s : Game) (Hreach : reachable rand s) :
  Forall kind_ok (obstacles s).
Proof. by apply reachable_obstacles_ok. Qed.

(** X11.  The spawner picks the kind by its first draw [r]: a cactus if
    r < 0.6, a double cactus if 0.6 <= r < 0.85, a pterodactyl otherwise.  The
    obstacle is appended at the end of the list at x = 20, not passed, with
    the data of its kind; nothing else changes but the count of draws. *)
Theorem createObstacle_by_first_draw (s : Game) :
  exists o k,
    createObstacle rand s = set_rng k (set_obstacles (obstacles s ++ [o]) s)
    /\ spawned_ok (rand (rng s)) o.
Proof. apply createObstacle_kind. Qed.

(** *** Score, speed and clock *)

Lemma playing_keeps delta s :
  speed (playing rand delta s)
  = baseSpeed + inject_Z (score s) * (5 # 100000)
  /\ lastTime (playing rand delta s) = lastTime s.
Proof.
  rewrite playing_eq.
  set (s2 := pre_loop rand delta s).
  destruct (jump_physics_shape rand delta
    (set_obstacles (survivors (speed s2) delta (obstacles s2))
       (foldr (effects rand delta) s2 (obstacles s2))))
    as (y & v & j & ps & k & ->).
  cbn [speed lastTime set_rng set_particles set_jumpVelocity set_isJumping
       set_pos_y set_dino set_obstacles].
  destruct (foldr_effects_same_player rand delta (obstacles s2) s2)
    as (_ & _ & _ & _ & _ & -> & _ & _ & -> & _).
  subst s2. unfold pre_loop.
  destruct (spawn_shape rand delta (update_speed s))
    as (extra & tm & k' & -> & _).
  split; reflexivity.
Qed.

Lemma animate_clock time s :
  lastTime (animate rand time s) = time
  /\ speed (animate rand time s)
     = (if gameStarted s && negb (gameOver s)
        then baseSpeed + inject_Z (score s) * (5 # 100000) else speed s).
Proof.
  destruct (animate_shape rand time s) as (x & y & k & ->).
  cbn [speed lastTime set_rng set_camera set_particles].
  destruct (gameStarted s && negb (gameOver s)) eqn:Hp.
  - rewrite gameplay_playing by exact Hp.
    destruct (playing_keeps (frame_delta time s) (set_lastTime time s))
      as (-> & ->).
    split; reflexivity.
  - rewrite gameplay_idle by exact Hp. split; reflexivity.
Qed.

Lemma step_score_ok e s : score_ok s -> score_ok (step rand e s).
Proof.
  intros ((k & Hk) & (j & Hj)). unfold score_ok.
  destruct (event_cases e) as [[time ->]|He].
  - cbn [step]. rewrite animate_score.
    destruct (animate_clock time s) as (_ & ->).
    destruct (gameStarted s && negb (gameOver s)) eqn:Hp.
    + rewrite gameplay_playing by exact Hp.
      rewrite (playing_score rand (frame_delta time s) (set_lastTime time s)).
      change (score (set_lastTime time s)) with (score s).
      split.
      * match goal with
        | |- context [Z.of_nat (length ?l)] => exists (k + length l)%nat
        end.
        rewrite Hk, Nat2Z.inj_add. lia.
      * exists k. by rewrite Hk.
    + rewrite gameplay_idle by exact Hp. split; [by exists k|by exists j].
  - destruct (handler_run e s He) as (_ & [(-> & ->)|(-> & ->)] & _).
    + split; [by exists k|by exists j].
    + split; exists 0%nat; [reflexivity|].
      change (inject_Z (100 * Z.of_nat 0)) with 0. lra.
Qed.

Lemma reachable_score_ok s : reachable rand s -> score_ok s.
Proof.
  induction 1 as [stored|e s _ IH]; [|by apply step_score_ok].
  split; exists 0%nat; [reflexivity|].
  change (inject_Z (100 * Z.of_nat 0)) with 0. cbn [speed initial].
  unfold baseSpeed. lra.
Qed.

(** X12.  In every reachable state the score is a non-negative multiple of
    100 and the speed is not below the base speed; a frame of a game being
    played sets the speed to the base speed plus 0.00005 times the score the
    frame started with, and any other frame leaves it. *)
Theorem score_and_speed (s : Game) (Hreach : reachable rand s) :
  (exists k : nat, score s = (100 * Z.of_nat k)%Z)
  /\ baseSpeed <= speed s
  /\ (forall time,
        speed (animate rand time s)
        = (if gameStarted s && negb (gameOver s)
           then baseSpeed + inject_Z (score s) * (5 # 100000) else speed s)).
Proof.
  destruct (reachable_score_ok s Hreach) as (Hk & (j & Hj)).
  split; [exact Hk|]. split.
  - rewrite Hj.
    assert (0 <= inject_Z (100 * Z.of_nat j)).
    { change 0 with (inject_Z 0). rewrite <- Zle_Qle. lia. }
    nra.
  - intros time. apply animate_clock.
Qed.

(** X13.  The clock: a frame's delta is never above 2, and the frame records
    its timestamp, so the delta of the next frame is the time since this one
    over 16.67, capped at 2.  There is no lower cap: a timestamp that is not
    later than the last gives a delta of 0 or less. *)
Theorem clock_delta (time time' : Q) (s : Game) :
  frame_delta time s <= 2
  /\ lastTime (animate rand time s) = time
  /\ frame_delta time' (animate rand time s)
     = Qmin ((time' - time) / (1667 # 100)) 2
  /\ (time' <= time -> frame_delta time' (animate rand time s) <= 0)
  /\ (time < time' -> 0 < frame_delta time' (animate rand time s)).
Proof.
  destruct (animate_clock time s) as (Hlast & _).
  unfold frame_delta. rewrite Hlast.
  split; [apply Q.le_min_r|]. split; [reflexivity|]. split; [reflexivity|].
  assert (Hdiv : (time' - time) / (1667 # 100)
                 == (time' - time) * (100 # 1667)) by reflexivity.
  split; intros Ht.
  - eapply Qle_trans; [apply Q.le_min_l|]. rewrite Hdiv. lra.
  - apply Q.min_glb_lt; [rewrite Hdiv|]; lra.
Qed.

(** *** Modes and posture *)

Lemma handler_gameOver e s :
  (forall time, e <> Frame time) ->
  (gameOver (step rand e s) = true -> gameOver s = true)
  /\ (gameOver s = true -> gameOver (step rand e s) = false ->
      is_start e = true).
Proof.
  intros He. handler_cases rand e s He; cbn;
    repeat match goal with
    | H : _ \/ _ |- _ => destruct H
    | c : KeyCode |- _ => destruct c; cbn in *
    end; split; congruence.
Qed.

Lemma animate_gameOver_kept time s :
  gameOver s = true -> gameOver (animate rand time s) = true.
Proof.
  intros Hgo.
  destruct (idle_frame time s) as (x & y & k & ->); [|exact Hgo].
  by rewrite Hgo, andb_false_r.
Qed.

Lemma startGame_posture_ok s : posture_ok s -> posture_ok (startGame s).
Proof.
  unfold posture_ok, startGame. game_simpl.
  intros (Hsc & Hy & _ & _). split; [exact Hsc|]. split; [exact Hy|].
  split; [discriminate|reflexivity].
Qed.

Lemma restartGame_posture_ok s : posture_ok (restartGame s).
Proof.
  unfold posture_ok, restartGame, startGame. game_simpl.
  split; [reflexivity|]. split; [reflexivity|].
  split; [discriminate|reflexivity].
Qed.

Lemma jump_posture_ok s :
  posture_ok s -> gameStarted s = true -> posture_ok (jump rand s).
Proof.
  intros (Hsc & Hy & Hidle & Hgo) Hgs.
  destruct (jump_cases rand s) as [(_ & _ & ps & k & ->)|(_ & ->)];
    [|unfold posture_ok; auto].
  unfold posture_ok. game_simpl.
  split; [exact Hsc|]. split; [discriminate|].
  split; [congruence|exact Hgo].
Qed.

Lemma duck_posture_ok s :
  posture_ok s -> gameStarted s = true -> posture_ok (duck s).
Proof.
  intros (Hsc & Hy & Hidle & Hgo) Hgs. unfold posture_ok, duck. game_simpl.
  split; [reflexivity|]. split; [discriminate|].
  split; [congruence|exact Hgo].
Qed.

Lemma stand_posture_ok s :
  posture_ok s ->
  posture_ok (set_pos_y baseY (set_scale_y 1 (set_isDucking false s))).
Proof.
  intros (Hsc & Hy & Hidle & Hgo). unfold posture_ok. game_simpl.
  split; [reflexivity|]. split; [reflexivity|]. split; [|exact Hgo].
  intros Hgs. by destruct (Hidle Hgs) as (-> & _).
Qed.

Lemma onKeyUp_posture_ok c s : posture_ok s -> posture_ok (onKeyUp c s).
Proof.
  intros Hs. unfold onKeyUp. destruct (is_down_key c); [|exact Hs].
  game_simpl. destruct (isJumping s) eqn:Hj; cbn [negb].
  - destruct Hs as (Hsc & Hy & Hidle & Hgo). unfold posture_ok. game_simpl.
    split; [reflexivity|]. split; [congruence|]. split; [|exact Hgo].
    intros Hgs. destruct (Hidle Hgs). congruence.
  - by apply stand_posture_ok.
Qed.

Lemma handler_posture_ok e s :
  (forall time, e <> Frame time) ->
  posture_ok s -> posture_ok (step rand e s).
Proof.
  intros He Hs. destruct e as [c|c| | |time]; cbn [step].
  - unfold onKeyDown.
    set (s' := if is_jump_key c then _ else s).
    assert (Hs' : posture_ok s').
    { subst s'. destruct (is_jump_key c); [|exact Hs].
      destruct (gameStarted s) eqn:Hgs; cbn [negb].
      - destruct (gameOver s); [apply restartGame_posture_ok|].
        by apply jump_posture_ok.
      - by apply startGame_posture_ok. }
    destruct (is_down_key c && gameStarted s' && negb (gameOver s')) eqn:Hd;
      [|exact Hs'].
    apply andb_true_iff in Hd as (Hd & _).
    apply andb_true_iff in Hd as (_ & Hgs).
    by apply duck_posture_ok.
  - by apply onKeyUp_posture_ok.
  - unfold onPointerDown. destruct (gameStarted s) eqn:Hgs; cbn [negb].
    + destruct (gameOver s); [apply restartGame_posture_ok|].
      destruct (negb _); [by apply duck_posture_ok|exact Hs].
    + by apply startGame_posture_ok.
  - unfold onPointerUp. destruct (gameStarted s) eqn:Hgs; cbn [negb orb];
      [|exact Hs].
    destruct (gameOver s); [exact Hs|].
    destruct (isDucking s).
    + apply jump_posture_ok; [by apply stand_posture_ok|exact Hgs].
    + by apply jump_posture_ok.
  - by destruct (He time).
Qed.

Lemma step_posture_ok e s : posture_ok s -> posture_ok (step rand e s).
Proof.
  intros Hs. destruct (event_cases e) as [[time ->]|He];
    [|by apply handler_posture_ok].
  destruct Hs as (Hsc & Hy & Hidle & Hgo). unfold posture_ok.
  cbn [step]. rewrite animate_gameStarted.
  destruct (animate_player rand time s) as (-> & -> & -> & -> & _).
  destruct (gameStarted s && negb (gameOver s)) eqn:Hp.
  - apply andb_true_iff in Hp as (Hgs & _).
    destruct (jump_physics_fields rand (frame_delta time s) s)
      as (-> & -> & _ & -> & -> & _).
    split; [exact Hsc|]. split; [|split; [congruence|done]].
    destruct (isJumping s); [|exact Hy].
    by destruct (Qleb _ _).
  - split; [exact Hsc|]. split; [exact Hy|]. split; [exact Hidle|].
    intros Hgo'.
    destruct (idle_frame time s Hp) as (x & y & k & Hshape).
    rewrite Hshape in Hgo'. by apply Hgo.
Qed.

Lemma reachable_posture_ok s : reachable rand s -> posture_ok s.
Proof.
  induction 1 as [stored|e s _ IH]; [|by apply step_posture_ok].
  unfold posture_ok. cbn. repeat split; congruence.
Qed.

(** X14.  The modes.  Once started the game stays started.  No input ends a
    run: only a frame can.  From the end of a run only a start input (space
    bar, up arrow, pointer press) leads back to play: any other event,
    frames included, leaves the game over.  And in every reachable state a
    game that is over has been started. *)
Theorem mode_transitions (e : Event) (s : Game) :
  (gameStarted s = true -> gameStarted (step rand e s) = true)
  /\ ((forall time, e <> Frame time) ->
      gameOver (step rand e s) = true -> gameOver s = true)
  /\ (gameOver s = true -> gameOver (step rand e s) = false ->
      is_start e = true)
  /\ (reachable rand s -> gameOver s = true -> gameStarted s = true).
Proof.
  split; [|split; [|split]].
  - intros Hgs. destruct (event_cases e) as [[time ->]|He].
    + cbn [step]. by rewrite animate_gameStarted.
    + by apply handler_gameStarted.
  - intros He. apply (handler_gameOver e s He).
  - intros Hgo Hgo'. destruct (event_cases e) as [[time ->]|He].
    + cbn [step] in Hgo'. rewrite animate_gameOver_kept in Hgo' by exact Hgo.
      discriminate.
    + by apply (handler_gameOver e s He).
  - intros Hreach. by destruct (reachable_posture_ok s Hreach) as (_ & _ & _ & H).
Qed.

(** X15.  The posture in every reachable state: the vertical scale is 0.5
    exactly while the duck flag is set and 1 otherwise; a player neither
    airborne nor ducking is exactly at the base height; before the first
    start the player is neither airborne nor ducking. *)
Theorem posture_invariant (s : Game) (Hreach : reachable rand s) :
  scale_y (dino s) = (if isDucking s then 5 # 10 else 1)
  /\ (isJumping s = false -> isDucking s = false -> pos_y (dino s) = baseY)
  /\ (gameStarted s = false -> isJumping s = false /\ isDucking s = false).
Proof.
  destruct (reachable_posture_ok s Hreach) as (H1 & H2 & H3 & _). tauto.
Qed.

(** *** Inputs and gestures *)

(** Standing up a player who already stands changes nothing. *)
Lemma stand_id s :
  isDucking s = false -> scale_y (dino s) = 1 -> pos_y (dino s) = baseY ->
  set_pos_y baseY (set_scale_y 1 (set_isDucking false s)) = s.
Proof.
  destruct s as [? ? [? ? ?] ? ? ? ? ? ? ? ? ? ? ? ? ? ?]. cbn.
  by intros -> -> ->.
Qed.

Lemma standing s :
  posture_ok s -> isJumping s = false -> isDucking s = false ->
  scale_y (dino s) = 1 /\ pos_y (dino s) = baseY.
Proof.
  intros (Hsc & Hy & _) Hj Hd. rewrite Hd in Hsc. split; [exact Hsc|auto].
Qed.

(** X16.  Before the first start the game takes no input but a start input:
    in a reachable state not yet started, every other key press, every key
    release and the pointer release leave the state exactly as it is. *)
Theorem idle_ignores_input (e : Event) (s : Game)
  (Hreach : reachable rand s) (Hidle : gameStarted s = false)
  (He : forall time, e <> Frame time) (Hstart : is_start e = false) :
  step rand e s = s.
Proof.
  pose proof (reachable_posture_ok s Hreach) as Hok.
  destruct Hok as (Hsc & Hy & Hi & Hgo).
  destruct (Hi Hidle) as (Hj & Hd).
  destruct (standing s (conj Hsc (conj Hy (conj Hi Hgo))) Hj Hd) as (H1 & H2).
  destruct e as [c|c| | |time]; cbn [step].
  - unfold onKeyDown. destruct c; try discriminate; cbn [is_jump_key];
      by rewrite Hidle, andb_false_r.
  - unfold onKeyUp. destruct (is_down_key c); [|done].
    game_simpl. rewrite Hj. cbn [negb]. by apply stand_id.
  - discriminate.
  - unfold onPointerUp. by rewrite Hidle.
  - by destruct (He time).
Qed.

(** X17.  Duck and stand up again: in a reachable state of a game being
    played, with the player on the ground and standing, pressing and then
    releasing the down arrow gives back exactly the state before the
    press. *)
Theorem duck_release_round_trip (s : Game)
  (Hreach : reachable rand s)
  (Hstarted : gameStarted s = true) (Hover : gameOver s = false)
  (Hground : isJumping s = false) (Hstand : isDucking s = false) :
  onKeyUp ArrowDown (onKeyDown rand ArrowDown s) = s.
Proof.
  destruct (standing s (reachable_posture_ok s Hreach) Hground Hstand)
    as (H1 & H2).
  unfold onKeyDown, onKeyUp. cbn [is_jump_key is_down_key andb].
  rewrite Hstarted, Hover. cbn [andb negb]. unfold duck. game_simpl.
  rewrite Hground. cbn [negb].
  destruct s as [? ? [? ? ?] ? ? ? ? ? ? ? ? ? ? ? ? ? ?]. cbn in *.
  by subst.
Qed.

(** X18.  The pointer gesture: in the same states, a press followed by a
    release is exactly a jump from the standing posture; the duck taken at
    the press leaves no trace. *)
Theorem pointer_tap_is_jump (s : Game)
  (Hreach : reachable rand s)
  (Hstarted : gameStarted s = true) (Hover : gameOver s = false)
  (Hground : isJumping s = false) (Hstand : isDucking s = false) :
  onPointerUp rand (onPointerDown s) = jump rand s.
Proof.
  destruct (standing s (reachable_posture_ok s Hreach) Hground Hstand)
    as (H1 & H2).
  unfold onPointerDown. rewrite Hstarted, Hover, Hground. cbn [negb].
  unfold onPointerUp, duck. game_simpl.
  rewrite Hstarted, Hover. cbn [negb orb].
  f_equal.
  destruct s as [? ? [? ? ?] ? ? ? ? ? ? ? ? ? ? ? ? ? ?]. cbn in *.
  by subst.
Qed.

(** X19.  No double jump: a jump asked for while a jump is under way, or
    after the end of the run, does nothing, so jumping twice is jumping
    once. *)
Theorem jump_once (s : Game) :
  jump rand (jump rand s) = jump rand s
  /\ (isJumping s = true \/ gameOver s = true -> jump rand s = s).
Proof.
  split.
  - destruct (jump_cases rand s) as [(_ & _ & ps & k & Heq)|(_ & Heq)].
    + destruct (jump_cases rand (jump rand s)) as [(Hj & _)|(_ & H)];
        [|exact H].
      rewrite Heq in Hj. discriminate.
    + by rewrite !Heq.
  - intros H. by destruct (jump_cases rand s) as [(Hj & Hg & _)|(_ & Heq)];
      [destruct H; congruence|].
Qed.

(** *** The spawner *)

Lemma spawnInterval_bounds sc :
  50 <= spawnInterval sc /\ ((0 <= sc)%Z -> spawnInterval sc <= 100).
Proof.
  unfold spawnInterval. split; [apply Q.le_max_l|].
  intros Hsc. apply Q.max_lub; [lra|].
  assert (0 <= inject_Z sc) by (change 0 with (inject_Z 0); by rewrite <- Zle_Qle).
  lra.
Qed.

(** X20.  The spawner makes an obstacle exactly when the timer, advanced by
    the frame's delta, exceeds the spawn interval at the current score; it
    then zeroes the timer.  So while the advanced timer is at most 50 nothing
    is spawned, whatever the score, and once it is above 100 (the score not
    being negative) one obstacle is, at x = 20 and not passed. *)
Theorem spawner_thresholds (delta : Q) (s : Game) :
  let t := obstacleTimer s + delta in
  (Qltb (spawnInterval (score s)) t = false ->
     spawn rand delta s = set_obstacleTimer t s)
  /\ (Qltb (spawnInterval (score s)) t = true ->
      exists o k,
        spawn rand delta s
        = set_obstacleTimer 0
            (set_rng k (set_obstacles (obstacles s ++ [o])
               (set_obstacleTimer t s)))
        /\ spawned_ok (rand (rng s)) o)
  /\ (t <= 50 -> Qltb (spawnInterval (score s)) t = false)
  /\ ((0 <= score s)%Z -> 100 < t ->
      Qltb (spawnInterval (score s)) t = true).
Proof.
  intros t. destruct (spawnInterval_bounds (score s)) as (Hlo & Hhi).
  split; [|split; [|split]].
  - intros H. unfold spawn. game_simpl. fold t. by rewrite H.
  - intros H. unfold spawn. game_simpl. fold t. rewrite H.
    destruct (createObstacle_kind (set_obstacleTimer t s))
      as (o & k & -> & Hok).
    by exists o, k.
  - intros Ht. apply Qltb_ge. lra.
  - intros Hsc Ht. apply Qltb_lt. specialize (Hhi Hsc). lra.
Qed.

Lemma advance_x spd delta o :
  o_x (advance spd delta o) = o_x o - spd * delta
  /\ o_width (advance spd delta o) = o_width o
  /\ o_y (advance spd delta o) = o_y o
  /\ o_height (advance spd delta o) = o_height o.
Proof. unfold advance. by destruct (scores _). Qed.

Lemma kind_width o : kind_ok o -> o_width o <= 2.
Proof.
  unfold kind_ok. destruct (o_type o); intros (_ & -> & _); lra.
Qed.

(** X21.  A just-spawned obstacle cannot end the run in the frame that
    spawns it: as long as the score is between 0 and 200000, the obstacles
    the spawner appends in a frame, moved by that frame, do not meet the
    player's box, wherever the player is. *)
Theorem new_obstacle_cannot_hit (time : Q) (s : Game)
  (Hlo : (0 <= score s)%Z) (Hhi : (score s <= 200000)%Z) :
  let delta := frame_delta time s in
  let spd := baseSpeed + inject_Z (score s) * (5 # 100000) in
  exists extra,
    obstacles (pre_loop rand delta (set_lastTime time s))
    = obstacles s ++ extra
    /\ (length extra <= 1)%nat
    /\ Forall (fun o => o_x o = 20
                        /\ checkCollision s (advance spd delta o) = false)
         extra.
Proof.
  intros delta spd.
  destruct (pre_loop_kind delta (set_lastTime time s))
    as (extra & Hobs & Hlen & Hall).
  exists extra. split; [exact Hobs|]. split; [exact Hlen|].
  eapply Forall_impl; [exact Hall|]. cbn beta.
  intros o (Hx & _ & Hk). split; [exact Hx|].
  pose proof (kind_width o Hk) as Hw.
  assert (Hd : delta <= 2) by apply Q.le_min_r.
  assert (H0 : 0 <= inject_Z (score s))
    by (change 0 with (inject_Z 0); by rewrite <- Zle_Qle).
  assert (H1 : inject_Z (score s) <= 200000)
    by (change 200000 with (inject_Z 200000); by rewrite <- Zle_Qle).
  assert (Hspd : 0 <= spd /\ spd <= 1015 # 100)
    by (subst spd; unfold baseSpeed; split; lra).
  assert (Hmove : spd * delta <= 203 # 10).
  { destruct (Qlt_le_dec delta 0) as [Hneg|Hpos].
    - assert (spd * delta <= 0) by nra. lra.
    - nra. }
  destruct (advance_x spd delta o) as (Hax & Haw & _).
  unfold checkCollision, overlap, dinoBox, obsBox.
  cbn [b_x b_y b_width b_height]. rewrite Hax, Haw, Hx.
  unfold dino_x, Qdiv. change (/ 2) with (1 # 2).
  assert (Hfar : Qltb (-4 - (4 # 10) + (12 # 10))
                   (20 - spd * delta - o_width o * (1 # 2)) = true)
    by (apply Qltb_lt; lra).
  by rewrite Hfar.
Qed.

(** *** The camera *)

Lemma camera_update_fields s :
  let shake := gameOver s && negb (Nat.eqb (length (particles s)) 0) in
  camera_x (camera_update rand s)
  = (if shake then (rand (rng s) - (5 # 10)) * (2 # 10)
     else camera_x s + (0 - camera_x s) * (1 # 10))
  /\ camera_y (camera_update rand s)
     = (if shake then 2 + (rand (S (rng s)) - (5 # 10)) * (2 # 10)
        else camera_y s + (2 - camera_y s) * (1 # 10)).
Proof. cbv zeta. unfold camera_update. by destruct (_ && _). Qed.

Lemma endGame_camera s :
  camera_x (endGame rand s) = camera_x s
  /\ camera_y (endGame rand s) = camera_y s.
Proof.
  unfold endGame.
  destruct (createDeathParticles_drawn (set_gameOver true s))
    as (ps & _ & _ & ->).
  cbn [set_visible]. by destruct (_ <? _)%Z.
Qed.

Lemma effects_camera delta o s :
  camera_x (effects rand delta o s) = camera_x s
  /\ camera_y (effects rand delta o s) = camera_y s.
Proof.
  unfold effects.
  set (s1 := if scores _ then _ else s).
  assert (H1 : camera_x s1 = camera_x s /\ camera_y s1 = camera_y s).
  { subst s1. destruct (scores _); [|done].
    by destruct (createScoreParticles_drawn (set_score (score s + 100) s))
      as (ps & _ & _ & ->). }
  destruct (checkCollision _ _); [|exact H1].
  destruct (endGame_camera s1) as (-> & ->). exact H1.
Qed.

Lemma foldr_effects_camera delta l s :
  camera_x (foldr (effects rand delta) s l) = camera_x s
  /\ camera_y (foldr (effects rand delta) s l) = camera_y s.
Proof.
  induction l as [|o l (IHx & IHy)]; [done|]. cbn [foldr].
  destruct (effects_camera delta o (foldr (effects rand delta) s l))
    as (-> & ->).
  by split.
Qed.

Lemma gameplay_camera time s :
  camera_x (gameplay rand time s) = camera_x s
  /\ camera_y (gameplay rand time s) = camera_y s.
Proof.
  destruct (gameStarted s && negb (gameOver s)) eqn:Hp;
    [|by rewrite gameplay_idle].
  rewrite gameplay_playing, playing_eq by exact Hp.
  set (d := frame_delta time s). set (s2 := pre_loop rand d _).
  destruct (jump_physics_shape rand d
    (set_obstacles (survivors (speed s2) d (obstacles s2))
       (foldr (effects rand d) s2 (obstacles s2))))
    as (y & v & j & ps & k & ->).
  cbn [camera_x camera_y set_rng set_particles set_jumpVelocity set_isJumping
       set_pos_y set_dino set_obstacles].
  destruct (foldr_effects_camera d (obstacles s2) s2) as (-> & ->).
  subst s2. unfold pre_loop.
  by destruct (spawn_shape rand d (update_speed (set_lastTime time s)))
    as (extra & tm & k' & -> & _).
Qed.

Lemma step_camera_near e s :
  (forall n, 0 <= rand n < 1) -> camera_near s -> camera_near (step rand e s).
Proof.
  intros Hrand ((Hx1 & Hx2) & (Hy1 & Hy2)). unfold camera_near.
  destruct (event_cases e) as [[time ->]|He].
  - cbn [step]. rewrite animate_gameplay, particle_loop_all.
    set (g := set_particles _ (gameplay rand time s)).
    destruct (camera_update_fields g) as (-> & ->).
    assert (Hg : camera_x g = camera_x s /\ camera_y g = camera_y s)
      by apply gameplay_camera.
    destruct Hg as (-> & ->).
    pose proof (Hrand (rng g)). pose proof (Hrand (S (rng g))).
    destruct (_ && _); repeat split; lra.
  - destruct (handler_run e s He) as (_ & _ & _ & _ & -> & ->).
    tauto.
Qed.

(** X22.  The camera never strays: as long as every draw is in [0, 1), in
    every reachable state the camera is at most 0.1 from the rest position
    (0, 2) on each axis, shaken or settling. *)
Theorem camera_stays_near (s : Game)
  (Hrand : forall n, 0 <= rand n < 1) (Hreach : reachable rand s) :
  - (1 # 10) <= camera_x s <= 1 # 10 /\ 19 # 10 <= camera_y s <= 21 # 10.
Proof.
  induction Hreach as [stored|e s _ IH].
  - cbn. repeat split; lra.
  - by apply step_camera_near.
Qed.

(** *** The ground lines *)

Lemma scroll_line_bounds spd delta x :
  0 <= spd * delta <= 80 -> -40 <= x <= 49 ->
  -40 <= scroll_line spd delta x <= 49.
Proof.
  intros (H0 & H80) (Hlo & Hhi). unfold scroll_line.
  destruct (Qltb _ _) eqn:E;
    [apply Qltb_lt in E|apply Qltb_ge in E]; split; lra.
Qed.

(** X23.  The ground lines stay on the road: the lines [createGround] lays
    are all between -40 and 49, and scrolling, with a step between 0 and 80,
    keeps every line in that range and keeps their number: a line that passes
    -40 comes back 80 further right. *)
Theorem ground_lines_stay (spd delta : Q) (xs : list Q)
  (Hstep : 0 <= spd * delta <= 80)
  (Hxs : Forall (fun x => -40 <= x <= 49) xs) :
  Forall (fun x => -40 <= x <= 49) (scroll_lines spd delta xs)
  /\ length (scroll_lines spd delta xs) = length xs
  /\ Forall (fun x => -40 <= x <= 49) groundLines
  /\ length groundLines = 35%nat.
Proof.
  split; [|split; [|split]].
  - unfold scroll_lines. apply Forall_map.
    eapply Forall_impl; [exact Hxs|]. cbn beta. intros x Hx.
    by apply scroll_line_bounds.
  - apply length_map.
  - vm_compute. repeat constructor; discriminate.
  - reflexivity.
Qed.

(** *** Restart *)

(** X24.  Restart is a full reset: after the end of a run each start input
    (space bar, up arrow, pointer press) gives the state of a game just
    started, with no obstacle and no particle, the score 0, the base speed,
    the timer at 0 and the player standing, visible, on the ground at the
    base height; only the best score, in memory and stored, the camera, the
    clock and the count of draws are kept. *)
Theorem restart_resets (e : Event) (s : Game)
  (Hstarted : gameStarted s = true) (Hover : gameOver s = true)
  (He : is_start e = true) :
  step rand e s
  = mkGame [] [] (mkDino baseY 1 true) (camera_x s) (camera_y s) true false
      0 (highScore s) baseSpeed 0 false false 0 (lastTime s) (storage s)
      (rng s).
Proof.
  destruct e as [[| | |]|c| | |time]; try discriminate; cbn [step];
    unfold onKeyDown, onPointerDown; cbn [is_jump_key is_down_key andb];
    rewrite Hstarted, Hover; cbn [negb andb];
    unfold restartGame, startGame; reflexivity.
Qed.

End Further.

(** ** The further properties on concrete inputs *)

Lemma reachable_crashed : reachable draws0 crashed.
Proof. unfold crashed. apply reachable_run. constructor. Qed.

Lemma crashed_over : gameStarted crashed = true /\ gameOver crashed = true.
Proof. lazy. by split. Qed.

Lemma ground_obstacle_hit_witness :
  o_y (mkObstacle cactus (-4) groundY (8 # 10) (25 # 10) 0 false) == groundY
  /\ o_height (mkObstacle cactus (-4) groundY (8 # 10) (25 # 10) 0 false)
     == 25 # 10
  /\ x_within (mkObstacle cactus (-4) groundY (8 # 10) (25 # 10) 0 false)
  /\ checkCollision jump_into_cactus
       (mkObstacle cactus (-4) groundY (8 # 10) (25 # 10) 0 false) = true.
Proof.
  assert (H1 : o_y (mkObstacle cactus (-4) groundY (8 # 10) (25 # 10) 0 false)
               == groundY) by reflexivity.
  assert (H2 : o_height
                 (mkObstacle cactus (-4) groundY (8 # 10) (25 # 10) 0 false)
               == 25 # 10) by reflexivity.
  assert (H3 : x_within
                 (mkObstacle cactus (-4) groundY (8 # 10) (25 # 10) 0 false))
    by (vm_compute; split; discriminate).
  assert (H4 : baseY - (5 # 10) - margin <= pos_y (dino jump_into_cactus))
    by (vm_compute; discriminate).
  assert (H5 : pos_y (dino jump_into_cactus)
               <= groundY + (25 # 10) - margin)
    by (vm_compute; discriminate).
  split; [exact H1|]. split; [exact H2|]. split; [exact H3|].
  exact (proj1 (ground_obstacle_hit jump_into_cactus _ H1 H2) H3 H4 H5).
Defined.

Lemma pterodactyl_hit_witness :
  o_height low_pterodactyl == 15 # 10
  /\ o_y low_pterodactyl == groundY + (12 # 10)
  /\ isDucking ducked = true
  /\ pos_y (dino ducked) <= baseY - (5 # 10) + margin
  /\ checkCollision ducked low_pterodactyl = false.
Proof.
  assert (H1 : o_height low_pterodactyl == 15 # 10) by reflexivity.
  assert (H2 : o_y low_pterodactyl == groundY + (12 # 10)) by reflexivity.
  assert (H3 : isDucking ducked = true) by reflexivity.
  assert (H4 : pos_y (dino ducked) <= baseY - (5 # 10) + margin)
    by (vm_compute; discriminate).
  split; [exact H1|]. split; [exact H2|]. split; [exact H3|].
  split; [exact H4|].
  exact (proj2 (proj2 (proj1 (pterodactyl_hit ducked low_pterodactyl H1) H2))
           H3 H4).
Defined.

Lemma scored_narrow_cannot_hit_witness :
  o_width (mkObstacle cactus (-6) groundY (8 # 10) (25 # 10) 0 true)
  <= (12 # 10) - 2 * margin
  /\ Qltb (o_x (mkObstacle cactus (-6) groundY (8 # 10) (25 # 10) 0 true))
       (dino_x - 1) = true
  /\ checkCollision started
       (mkObstacle cactus (-6) groundY (8 # 10) (25 # 10) 0 true) = false.
Proof.
  assert (H1 : o_width (mkObstacle cactus (-6) groundY (8 # 10) (25 # 10) 0
                          true) <= (12 # 10) - 2 * margin)
    by (vm_compute; discriminate).
  assert (H2 : Qltb (o_x (mkObstacle cactus (-6) groundY (8 # 10) (25 # 10)
                            0 true)) (dino_x - 1) = true) by reflexivity.
  split; [exact H1|]. split; [exact H2|].
  exact (proj1 (scored_narrow_cannot_hit started _) H1 H2).
Defined.

Lemma particles_alive_witness :
  reachable draws34 jumped /\ Forall particle_ok (particles jumped).
Proof.
  assert (H : reachable draws34 jumped) by (apply reachable_run; constructor).
  split; [exact H|exact (particles_alive draws34 jumped H)].
Defined.

Lemma frame_frozen_when_not_playing_witness :
  gameStarted crashed && negb (gameOver crashed) = false
  /\ exists x y k,
       animate draws0 4318 crashed
       = set_rng k (set_camera x y
           (set_particles (aged (particles crashed))
              (set_lastTime 4318 crashed))).
Proof.
  assert (H : gameStarted crashed && negb (gameOver crashed) = false)
    by (destruct crashed_over as (-> & ->); reflexivity).
  split; [exact H|exact (frame_frozen_when_not_playing draws0 4318 crashed H)].
Defined.

Lemma particles_drain_witness :
  reachable draws0 crashed
  /\ gameStarted crashed && negb (gameOver crashed) = false
  /\ (50 <= length (repeat 5000 50))%nat
  /\ particles (run draws0 (map Frame (repeat 5000 50)) crashed) = [].
Proof.
  assert (H : gameStarted crashed && negb (gameOver crashed) = false)
    by (destruct crashed_over as (-> & ->); reflexivity).
  assert (Hlen : (50 <= length (repeat 5000 50))%nat)
    by (rewrite repeat_length; lia).
  split; [exact reachable_crashed|]. split; [exact H|]. split; [exact Hlen|].
  exact (particles_drain draws0 crashed (repeat 5000 50) reachable_crashed H
           Hlen).
Defined.

Lemma obstacles_placed_witness :
  reachable draws0 crashed /\ Forall obstacle_placed (obstacles crashed).
Proof.
  split; [exact reachable_crashed|].
  exact (obstacles_placed draws0 crashed reachable_crashed).
Defined.

Lemma obstacles_of_three_kinds_witness :
  reachable draws0 crashed /\ Forall kind_ok (obstacles crashed).
Proof.
  split; [exact reachable_crashed|].
  exact (obstacles_of_three_kinds draws0 crashed reachable_crashed).
Defined.

Lemma score_and_speed_witness :
  reachable draws0 crashed
  /\ (exists k : nat, score crashed = (100 * Z.of_nat k)%Z)
  /\ baseSpeed <= speed crashed.
Proof.
  split; [exact reachable_crashed|].
  destruct (score_and_speed draws0 crashed reachable_crashed) as (H1 & H2 & _).
  split; [exact H1|exact H2].
Defined.

Lemma posture_invariant_witness :
  reachable draws0 ducked
  /\ scale_y (dino ducked) = (if isDucking ducked then 5 # 10 else 1).
Proof.
  assert (H : reachable draws0 ducked) by (apply reachable_run; constructor).
  split; [exact H|exact (proj1 (posture_invariant draws0 ducked H))].
Defined.

Lemma idle_ignores_input_witness :
  reachable draws0 (initial None) /\ gameStarted (initial None) = false
  /\ (forall time, KeyUp ArrowDown <> Frame time)
  /\ is_start (KeyUp ArrowDown) = false
  /\ step draws0 (KeyUp ArrowDown) (initial None) = initial None.
Proof.
  assert (H1 : reachable draws0 (initial None)) by constructor.
  assert (H2 : forall time, KeyUp ArrowDown <> Frame time) by discriminate.
  split; [exact H1|]. split; [reflexivity|]. split; [exact H2|].
  split; [reflexivity|].
  exact (idle_ignores_input draws0 (KeyUp ArrowDown) (initial None) H1
           eq_refl H2 eq_refl).
Defined.

Lemma reachable_started : reachable draws0 started.
Proof. unfold started. repeat constructor. Qed.

Lemma duck_release_round_trip_witness :
  reachable draws0 started /\ gameStarted started = true
  /\ gameOver started = false /\ isJumping started = false
  /\ isDucking started = false
  /\ onKeyUp ArrowDown (onKeyDown draws0 ArrowDown started) = started.
Proof.
  split; [exact reachable_started|]. repeat (split; [reflexivity|]).
  exact (duck_release_round_trip draws0 started reachable_started
           eq_refl eq_refl eq_refl eq_refl).
Defined.

Lemma pointer_tap_is_jump_witness :
  reachable draws0 started /\ gameStarted started = true
  /\ gameOver started = false /\ isJumping started = false
  /\ isDucking started = false
  /\ onPointerUp draws0 (onPointerDown started) = jump draws0 started.
Proof.
  split; [exact reachable_started|]. repeat (split; [reflexivity|]).
  exact (pointer_tap_is_jump draws0 started reachable_started
           eq_refl eq_refl eq_refl eq_refl).
Defined.

Lemma new_obstacle_cannot_hit_witness :
  (0 <= score spawn_due)%Z /\ (score spawn_due <= 200000)%Z
  /\ frame_delta 34 spawn_due == 2
  /\ exists o,
       obstacles (pre_loop draws0 (frame_delta 34 spawn_due)
                    (set_lastTime 34 spawn_due))
       = obstacles spawn_due ++ [o]
       /\ o_x o = 20
       /\ checkCollision spawn_due
            (advance (baseSpeed + inject_Z (score spawn_due) * (5 # 100000))
               (frame_delta 34 spawn_due) o) = false.
Proof.
  assert (H1 : (0 <= score spawn_due)%Z) by (cbn; lia).
  assert (H2 : (score spawn_due <= 200000)%Z) by (cbn; lia).
  split; [exact H1|]. split; [exact H2|]. split; [reflexivity|].
  destruct (new_obstacle_cannot_hit draws0 34 spawn_due H1 H2)
    as (extra & Hobs & Hlen & Hall).
  assert (Hn : length (obstacles (pre_loop draws0 (frame_delta 34 spawn_due)
                                    (set_lastTime 34 spawn_due))) = 1%nat)
    by reflexivity.
  rewrite Hobs in Hn. change (obstacles spawn_due) with (@nil Obstacle) in *.
  destruct extra as [|o [|o' extra]]; try discriminate.
  exists o. split; [exact Hobs|].
  apply Forall_cons in Hall as (Ho & _). exact Ho.
Defined.

Lemma draws0_in_range n : 0 <= draws0 n < 1.
Proof. unfold draws0. split; [apply Qle_refl|reflexivity]. Qed.

Lemma camera_stays_near_witness :
  (forall n, 0 <= draws0 n < 1) /\ reachable draws0 crashed
  /\ - (1 # 10) <= camera_x crashed <= 1 # 10
  /\ 19 # 10 <= camera_y crashed <= 21 # 10.
Proof.
  split; [exact draws0_in_range|]. split; [exact reachable_crashed|].
  exact (camera_stays_near draws0 crashed draws0_in_range reachable_crashed).
Defined.

Lemma ground_lines_stay_witness :
  0 <= (15 # 100) * 2 <= 80
  /\ Forall (fun x => -40 <= x <= 49) groundLines
  /\ Forall (fun x => -40 <= x <= 49) (scroll_lines (15 # 100) 2 groundLines).
Proof.
  assert (H1 : 0 <= (15 # 100) * 2 <= 80)
    by (split; vm_compute; discriminate).
  assert (H2 : Forall (fun x => -40 <= x <= 49) groundLines)
    by (vm_compute; repeat constructor; discriminate).
  split; [exact H1|]. split; [exact H2|].
  exact (proj1 (ground_lines_stay (15 # 100) 2 groundLines H1 H2)).
Defined.

Lemma restart_resets_witness :
  gameStarted crashed = true /\ gameOver crashed = true
  /\ is_start PointerDown = true
  /\ obstacles (step draws0 PointerDown crashed) = []
  /\ score (step draws0 PointerDown crashed) = 0%Z.
Proof.
  destruct crashed_over as (H1 & H2).
  split; [exact H1|]. split; [exact H2|]. split; [reflexivity|].
  pose proof (restart_resets draws0 PointerDown crashed H1 H2 eq_refl) as H.
  split; [exact (f_equal obstacles H)|exact (f_equal score H)].
Defined.
